(** * Registry-credential resolution of the Docker provider (docker/provider.go)

    A shallow embedding of [providerSetToRegistryAuth], [newAuthConfigurations],
    [parseDockerConfig] and [authConfigs], together with the parts of Go's
    [strings] and [encoding/base64] packages they call, and the properties of
    the credential resolver proved about them. *)

From Stdlib Require Import ZArith Ascii String DecimalString Lia.
From stdpp Require Import gmap strings list fin_maps.

Local Open Scope Z_scope.

(** ** Go values

    A Go [string] is a sequence of bytes: [String.string], whose characters
    are the 256 values of [ascii].  A [byte] converted to [uint] is its value
    in [0, 256); [uint] to [byte] keeps the low eight bits. *)

Definition uint_of_byte (c : ascii) : Z := Z.of_N (N_of_ascii c).

Definition byte_of_uint (v : Z) : ascii := ascii_of_N (Z.to_N (Z.land v 255)).

(** ** Errors

    Go's [error] values that can flow out of this file.  [ErrCannotParseDockercfg]
    is the package-level sentinel made once by [errors.New]; every [fmt.Errorf]
    call makes a fresh value that is only its message. *)

Inductive error : Type :=
  | ErrCannotParseDockercfg
  | Errorf (msg : string)
  | CorruptInputError (offset : Z)
  | UnmarshalError (msg : string)
  | OSError (msg : string).

Definition itoa (n : Z) : string := NilZero.string_of_int (Z.to_int n).

(** The [Error()] method, which is what the verb [%v] prints. *)
Definition Error (e : error) : string :=
  match e with
  | ErrCannotParseDockercfg => "Failed to read authentication from dockercfg"
  | Errorf msg => msg
  | CorruptInputError offset => "illegal base64 data at input byte " +:+ itoa offset
  | UnmarshalError msg => msg
  | OSError msg => msg
  end.

(** A Go result pair [(v, err)]: every return statement of this file is either
    [return nil, err] or [return v, nil]. *)
Inductive result (A : Type) : Type :=
  | Ok (v : A)
  | Err (e : error).
Arguments Ok {A} v.
Arguments Err {A} e.

(** ** The [strings] package *)

Module strings.

(** [strings.HasPrefix(s, prefix)] *)
Fixpoint HasPrefix (s pre : string) : bool :=
  match pre, s with
  | EmptyString, _ => true
  | String p pre', String c s' => if Ascii.eqb c p then HasPrefix s' pre' else false
  | String _ _, EmptyString => false
  end.


(** [strings.Replace(s, old, new, 1)] for a one-byte [old]: the first
    occurrence is replaced, the rest of [s] is kept. *)
Fixpoint ReplaceFirstByte (s : string) (old : ascii) (new : string) : string :=
  match s with
  | EmptyString => EmptyString
  | String c s' =>
      if Ascii.eqb c old then new +:+ s' else String c (ReplaceFirstByte s' old new)
  end.

(** [strings.SplitN(s, sep, 2)] for a one-byte [sep]: at most two parts,
    cut at the first separator; the whole string when there is none. *)
Fixpoint cut (s : string) (sep : ascii) : option (string * string) :=
  match s with
  | EmptyString => None
  | String c s' =>
      if Ascii.eqb c sep then Some (EmptyString, s')
      else match cut s' sep with
           | Some (before, after) => Some (String c before, after)
           | None => None
           end
  end.

Definition SplitN2 (s : string) (sep : ascii) : list string :=
  match cut s sep with
  | Some (before, after) => [before; after]
  | None => [s]
  end.

(** [strings.IndexByte(s, b) >= 0] *)
Fixpoint ContainsByte (s : string) (b : ascii) : bool :=
  match s with
  | EmptyString => false
  | String c s' => if Ascii.eqb c b then true else ContainsByte s' b
  end.

End strings.

(** ** The [encoding/base64] package, [StdEncoding]

    The standard alphabet of RFC 4648 with [=] padding, not strict: the
    decoder skips carriage returns and line feeds and does not check the
    unused low bits of a padded quantum. *)

Module base64.

Definition encodeStd : string :=
  "ABCDEFGHIJKLMNOPQRSTUVWXYZabcdefghijklmnopqrstuvwxyz0123456789+/".

Definition padChar : ascii := "="%char.

(** [enc.encode[k]] *)
Definition encode (k : Z) : ascii :=
  match String.get (Z.to_nat k) encodeStd with
  | Some c => c
  | None => "A"%char
  end.

(** [enc.decodeMap[c]]: the index of [c] in the alphabet, [0xff] for a byte
    outside it. *)
Fixpoint indexFrom (c : ascii) (tbl : string) (i : Z) : Z :=
  match tbl with
  | EmptyString => 255
  | String a tbl' => if Ascii.eqb a c then i else indexFrom c tbl' (i + 1)
  end.

Definition decodeMap (c : ascii) : Z := indexFrom c encodeStd 0.

(** The three bytes of a quantum packed in a [uint], as [Encode] does. *)
Definition pack3 (a b c : ascii) : Z :=
  Z.lor (Z.lor (Z.shiftl (uint_of_byte a) 16) (Z.shiftl (uint_of_byte b) 8))
        (uint_of_byte c).

Definition sextet (val : Z) (shift : Z) : ascii :=
  encode (Z.land (Z.shiftr val shift) 63).

(** [StdEncoding.EncodeToString] *)
Fixpoint EncodeToString (src : string) : string :=
  match src with
  | EmptyString => EmptyString
  | String a EmptyString =>
      let val := Z.shiftl (uint_of_byte a) 16 in
      String (sextet val 18) (String (sextet val 12)
        (String padChar (String padChar EmptyString)))
  | String a (String b EmptyString) =>
      let val := Z.lor (Z.shiftl (uint_of_byte a) 16) (Z.shiftl (uint_of_byte b) 8) in
      String (sextet val 18) (String (sextet val 12)
        (String (sextet val 6) (String padChar EmptyString)))
  | String a (String b (String c rest)) =>
      let val := pack3 a b c in
      String (sextet val 18) (String (sextet val 12)
        (String (sextet val 6) (String (sextet val 0) (EncodeToString rest))))
  end.

Definition isNewline (c : ascii) : bool :=
  Ascii.eqb c "010"%char || Ascii.eqb c "013"%char.

(** [for si < len(src) && (src[si] == '\n' || src[si] == '\r') { si++ }] *)
Fixpoint skipNewlines (src : string) (si : Z) : string * Z :=
  match src with
  | EmptyString => (src, si)
  | String c rest => if isNewline c then skipNewlines rest (si + 1) else (src, si)
  end.

(** [val := dbuf[0]<<18 | dbuf[1]<<12 | dbuf[2]<<6 | dbuf[3]], the slots that
    were not filled being zero. *)
Definition assemble (dbuf : list Z) : Z :=
  Z.lor (Z.lor (Z.lor (Z.shiftl (nth 0 dbuf 0) 18) (Z.shiftl (nth 1 dbuf 0) 12))
               (Z.shiftl (nth 2 dbuf 0) 6))
        (nth 3 dbuf 0).

(** The first [n] of the three bytes of [val]. *)
Definition bytesOf (val : Z) (n : nat) : string :=
  match n with
  | O => EmptyString
  | 1%nat => String (byte_of_uint (Z.shiftr val 16)) EmptyString
  | 2%nat => String (byte_of_uint (Z.shiftr val 16))
               (String (byte_of_uint (Z.shiftr val 8)) EmptyString)
  | _ => String (byte_of_uint (Z.shiftr val 16))
           (String (byte_of_uint (Z.shiftr val 8))
              (String (byte_of_uint val) EmptyString))
  end.

Definition prepend (s : string) (r : result string) : result string :=
  match r with
  | Ok t => Ok (s +:+ t)
  | Err e => Err e
  end.

(** No more input is allowed after the padding of the last quantum. *)
Definition finish (rest : string) (si : Z) (out : string) : result string :=
  match skipNewlines rest si with
  | (EmptyString, _) => Ok out
  | (String _ _, si') => Err (CorruptInputError si')
  end.

(** [Decode]: the loop over [decodeQuantum].  [si] is the index of the next
    input byte and [dbuf] holds the sextets of the quantum read so far. *)
Fixpoint decodeFrom (src : string) (si : Z) (dbuf : list Z) : result string :=
  match src with
  | EmptyString =>
      match dbuf with
      | [] => Ok EmptyString
      | _ => Err (CorruptInputError (si - Z.of_nat (length dbuf)))
      end
  | String c rest =>
      let si := si + 1 in
      let out := decodeMap c in
      if negb (out =? 255) then
        let dbuf := dbuf ++ [out] in
        if (length dbuf =? 4)%nat
        then prepend (bytesOf (assemble dbuf) 3) (decodeFrom rest si [])
        else decodeFrom rest si dbuf
      else if isNewline c then decodeFrom rest si dbuf
      else if negb (Ascii.eqb c padChar) then Err (CorruptInputError (si - 1))
      else
        match length dbuf with
        | 0%nat | 1%nat => Err (CorruptInputError (si - 1))
        | 2%nat =>
            match skipNewlines rest si with
            | (EmptyString, si) => Err (CorruptInputError si)
            | (String c2 rest2, si) =>
                if negb (Ascii.eqb c2 padChar) then Err (CorruptInputError (si - 1))
                else finish rest2 (si + 1) (bytesOf (assemble dbuf) 1)
            end
        | _ => finish rest si (bytesOf (assemble dbuf) 2)
        end
  end.

(** [StdEncoding.DecodeString] *)
Definition DecodeString (s : string) : result string := decodeFrom s 0 [].

End base64.

(** ** Data of the provider *)

(** [types.AuthConfig] of github.com/docker/docker/api/types. *)
Module types.
Record AuthConfig : Type := {
  Username : string;
  Password : string;
  Auth : string;
  Email : string;
  ServerAddress : string;
  IdentityToken : string;
  RegistryToken : string
}.

(** The zero value [types.AuthConfig{}]. *)
Definition zero : AuthConfig :=
  {| Username := ""; Password := ""; Auth := ""; Email := "";
     ServerAddress := ""; IdentityToken := ""; RegistryToken := "" |}.

Definition setUsername (v : string) (c : AuthConfig) : AuthConfig :=
  {| Username := v; Password := Password c; Auth := Auth c; Email := Email c;
     ServerAddress := ServerAddress c; IdentityToken := IdentityToken c;
     RegistryToken := RegistryToken c |}.

Definition setPassword (v : string) (c : AuthConfig) : AuthConfig :=
  {| Username := Username c; Password := v; Auth := Auth c; Email := Email c;
     ServerAddress := ServerAddress c; IdentityToken := IdentityToken c;
     RegistryToken := RegistryToken c |}.

Definition setServerAddress (v : string) (c : AuthConfig) : AuthConfig :=
  {| Username := Username c; Password := Password c; Auth := Auth c; Email := Email c;
     ServerAddress := v; IdentityToken := IdentityToken c;
     RegistryToken := RegistryToken c |}.
End types.

(** [AuthConfigs]: the map from registry address to credentials. *)
Record AuthConfigs : Type := { Configs : gmap string types.AuthConfig }.

(** [dockerConfig]: one entry of the credentials file. *)
Record dockerConfig : Type := { Auth : string; Email : string }.

(** One element of [authSet.List()]: the [map[string]interface{}] of a
    [registry_auth] block.  The four attributes are declared [TypeString] in
    the schema.  ["address"] and ["password"] are read by a plain type
    assertion; ["username"] and ["config_file"] are read with the comma-ok
    form, so their absence from the map is part of the data. *)
Record authBlock : Type := {
  address : string;
  username : option string;
  password : string;
  config_file : option string
}.

(** ** What provider.go calls and does not define

    The operating system ([user.Current], [os.Open] and the bytes read from
    the opened file), [json.Unmarshal] at the two types it is called at, and
    the order in which a [range] statement visits a map.  Go leaves that
    order unspecified and it may differ each time a loop is run: [range_confs
    i] and [range_auths i] are the orders of the two loops run for the [i]-th
    block. *)
Record World : Type := {
  user_Current : string + string;
  os_Open : string -> string + string;
  json_Unmarshal_auths : string -> gmap string dockerConfig + string;
  json_Unmarshal_confs : string -> gmap string dockerConfig + string;
  range_confs : nat -> gmap string dockerConfig -> list (string * dockerConfig);
  range_auths : nat -> gmap string types.AuthConfig -> list (string * types.AuthConfig)
}.

(** A [range] visits every entry of the map once. *)
Definition range_sound (W : World) : Prop :=
  (forall i m, range_confs W i m ≡ₚ map_to_list m) /\
  (forall i m, range_auths W i m ≡ₚ map_to_list m).

(** The calls made to the operating system, in order. *)
Inductive call : Type :=
  | CallUserCurrent
  | CallOpen (name : string).

(** A computation that logs its system calls and returns a Go result. *)
Definition io (A : Type) : Type := list call * result A.

Definition io_pure {A} (v : A) : io A := ([], Ok v).
Definition io_fail {A} (e : error) : io A := ([], Err e).
Definition io_bind {A B} (m : io A) (k : A -> io B) : io B :=
  match m with
  | (t, Ok v) => (t ++ fst (k v), snd (k v))
  | (t, Err e) => (t, Err e)
  end.
Definition io_lift {A} (r : result A) : io A := ([], r).

(** [if err != nil { return nil, fmt.Errorf(format, err) }] *)
Definition wrapErr {A} (prefix : string) (m : io A) : io A :=
  match m with
  | (t, Ok v) => (t, Ok v)
  | (t, Err e) => (t, Err (Errorf (prefix +:+ Error e)))
  end.

Notation "'do' x <- m ; k" := (io_bind m (fun x => k))
  (at level 10, x name, m at level 100, k at level 200).

Definition trace {A} (m : io A) : list call := fst m.
Definition outcome {A} (m : io A) : result A := snd m.

(** ** provider.go *)

Section Provider.

(** [normalizeRegistryAddress] is a function of the package declared outside
    provider.go; the resolver is embedded over it. *)
Variable normalizeRegistryAddress : string -> string.
Variable W : World.

Definition userCurrent : io string :=
  ([CallUserCurrent],
   match user_Current W with
   | inl homeDir => Ok homeDir
   | inr msg => Err (OSError msg)
   end).

Definition osOpen (name : string) : io string :=
  ([CallOpen name],
   match os_Open W name with
   | inl content => Ok content
   | inr msg => Err (OSError msg)
   end).

Definition jsonUnmarshal {A} (u : string -> A + string) (data : string) : result A :=
  match u data with
  | inl v => Ok v
  | inr msg => Err (UnmarshalError msg)
  end.

(** [parseDockerConfig], on the bytes read from [r]. *)
Definition parseDockerConfig (byteData : string) : result (gmap string dockerConfig) :=
  match jsonUnmarshal (json_Unmarshal_auths W) byteData with
  | Ok auths =>
      if (0 <? size auths)%nat then Ok auths
      else jsonUnmarshal (json_Unmarshal_confs W) byteData
  | Err _ => jsonUnmarshal (json_Unmarshal_confs W) byteData
  end.

(** Lines 272-279 of [authConfigs]: the user name and password packed in
    one [auth] value. *)
Definition decodeUserpass (auth : string) : result (string * string) :=
  match base64.DecodeString auth with
  | Err err => Err err
  | Ok data =>
      match strings.SplitN2 data ":"%char with
      | [user; pass] => Ok (user, pass)
      | _ => Err ErrCannotParseDockercfg
      end
  end.

(** The loop of [authConfigs] over the entries in the order they are
    visited, [c] being the map built so far. *)
Fixpoint authConfigsLoop (entries : list (string * dockerConfig))
    (c : gmap string types.AuthConfig) : result AuthConfigs :=
  match entries with
  | [] => Ok {| Configs := c |}
  | (reg, conf) :: entries' =>
      if String.eqb (Auth conf) "" then authConfigsLoop entries' c
      else
        match decodeUserpass (Auth conf) with
        | Err err => Err err
        | Ok (user, pass) =>
            authConfigsLoop entries'
              (<[reg := {| types.Email := Email conf;
                           types.Username := user;
                           types.Password := pass;
                           types.ServerAddress := reg;
                           types.Auth := Auth conf;
                           types.IdentityToken := "";
                           types.RegistryToken := "" |}]> c)
        end
  end.

Definition authConfigs (i : nat) (confs : gmap string dockerConfig) : result AuthConfigs :=
  authConfigsLoop (range_confs W i confs) ∅.

(** [newAuthConfigurations], on the bytes read from [r]. *)
Definition newAuthConfigurations (i : nat) (r : string) : result AuthConfigs :=
  match parseDockerConfig r with
  | Err err => Err err
  | Ok confs =>
      match authConfigs i confs with
      | Err err => Err err
      | Ok auth => Ok auth
      end
  end.

(** Lines 205-212: one step of the scan of the parsed file. *)
Definition scanStep (st : types.AuthConfig * bool) (entry : string * types.AuthConfig)
    : types.AuthConfig * bool :=
  let (authConfig, foundRegistry) := st in
  let (registry, authFileConfig) := entry in
  if String.eqb (types.ServerAddress authConfig) (normalizeRegistryAddress registry)
  then (types.setPassword (types.Password authFileConfig)
          (types.setUsername (types.Username authFileConfig) authConfig), true)
  else (authConfig, foundRegistry).

(** Lines 187-193: a leading [~/] is replaced by the home directory. *)
Definition expandHome (filePath : string) : io string :=
  if strings.HasPrefix filePath "~/" then
    do homeDir <- userCurrent;
    io_pure (strings.ReplaceFirstByte filePath "~"%char homeDir)
  else io_pure filePath.

(** Lines 186-217: the branch of a block that names a config file. *)
Definition fromConfigFile (i : nat) (authConfig : types.AuthConfig) (configFile : string)
    : io types.AuthConfig :=
  do filePath <- expandHome configFile;
  do r <- wrapErr "Error opening docker registry config file: " (osOpen filePath);
  do auths <- wrapErr "Error parsing docker registry config json: "
                (io_lift (newAuthConfigurations i r));
  let (authConfig', foundRegistry) :=
    fold_left scanStep (range_auths W i (Configs auths)) (authConfig, false) in
  if negb foundRegistry then
    io_fail (Errorf ("Couldn't find registry config for '" +:+ types.ServerAddress authConfig
                     +:+ "' in file: " +:+ filePath))
  else io_pure authConfig'.

(** [v, ok := auth[key]; ok && v.(string) != ""] *)
Definition nonEmpty (v : option string) : bool :=
  match v with
  | Some s => negb (String.eqb s "")
  | None => false
  end.

(** Lines 176-218: the credentials of the [i]-th block. *)
Definition resolveBlock (i : nat) (auth : authBlock) : io types.AuthConfig :=
  let authConfig :=
    types.setServerAddress (normalizeRegistryAddress (address auth)) types.zero in
  if nonEmpty (username auth) then
    io_pure (types.setPassword (password auth)
               (types.setUsername (default "" (username auth)) authConfig))
  else if nonEmpty (config_file auth) then
    fromConfigFile i authConfig (default "" (config_file auth))
  else io_pure authConfig.

(** The loop of [providerSetToRegistryAuth] from the [i]-th block on,
    [configs] being [authConfigs.Configs] so far. *)
Fixpoint resolveFrom (i : nat) (blocks : list authBlock)
    (configs : gmap string types.AuthConfig) : io AuthConfigs :=
  match blocks with
  | [] => io_pure {| Configs := configs |}
  | auth :: blocks' =>
      do authConfig <- resolveBlock i auth;
      resolveFrom (S i) blocks' (<[types.ServerAddress authConfig := authConfig]> configs)
  end.

(** [providerSetToRegistryAuth], on [authSet.List()]. *)
Definition providerSetToRegistryAuth (authSet : list authBlock) : io AuthConfigs :=
  resolveFrom 0 authSet ∅.

End Provider.

(** ** The address normalizer *)

Module AddressNormalizer.

(** Modelled from the spec: [normalizeRegistryAddress] is called by
    provider.go and declared in another file of the package.  Its contract
    is "strip a trailing [/] if present; this is the entirety of the
    normalization (no scheme stripping, no case-folding)", with the two
    equations "for all strings [s] without a trailing slash, [normalize(s) ==
    s]; for all [s], [normalize(s + "/") == normalize(s)]".  The equations
    leave one function: the address without the slashes it ends with. *)
Fixpoint normalize (address : string) : string :=
  match address with
  | EmptyString => EmptyString
  | String c rest =>
      match normalize rest with
      | EmptyString => if Ascii.eqb c "/"%char then EmptyString else String c EmptyString
      | String d rest' => String c (String d rest')
      end
  end.


End AddressNormalizer.

(** ** A small world to run the resolver in

    One credentials file in each of the two shapes, a file that is not JSON,
    a file with two keys that differ by a trailing slash and a file with an
    entry that has no colon.  The contents matter only through what
    [json.Unmarshal] makes of them; ['] stands for the double quote. *)

Module Demo.

Definition wrappedJSON : string :=
  "{'auths': {'registry.example.com': {'auth': 'dXNlcjpwYXNz', 'email': 'u@example.com'}, 'quiet.example.com': {'auth': ''}}}".

Definition flatJSON : string :=
  "{'registry.example.com': {'auth': 'dXNlcjpwYXNz'}}".

Definition twinJSON : string :=
  "{'auths': {'reg.example.com': {'auth': 'dTE6cDE='}, 'reg.example.com/': {'auth': 'dTI6cDI='}}}".

Definition brokenJSON : string :=
  "{'auths': {'registry.example.com': {'auth': 'dXNlcjpwYXNz'}, 'bad.example.com': {'auth': 'bm9jb2xvbg=='}}}".

Definition wrappedAuths : gmap string dockerConfig :=
  {[ "registry.example.com" := {| Auth := "dXNlcjpwYXNz"; Email := "u@example.com" |};
     "quiet.example.com" := {| Auth := ""; Email := "" |} ]}.

Definition flatConfs : gmap string dockerConfig :=
  {[ "registry.example.com" := {| Auth := "dXNlcjpwYXNz"; Email := "" |} ]}.

Definition twinAuths : gmap string dockerConfig :=
  {[ "reg.example.com" := {| Auth := "dTE6cDE="; Email := "" |};
     "reg.example.com/" := {| Auth := "dTI6cDI="; Email := "" |} ]}.

Definition brokenAuths : gmap string dockerConfig :=
  {[ "registry.example.com" := {| Auth := "dXNlcjpwYXNz"; Email := "" |};
     "bad.example.com" := {| Auth := "bm9jb2xvbg=="; Email := "" |} ]}.

Definition files : list (string * string) :=
  [ ("/home/dev/.docker/config.json", wrappedJSON);
    ("/etc/docker/flat.json", flatJSON);
    ("/etc/docker/twin.json", twinJSON);
    ("/etc/docker/broken.json", brokenJSON);
    ("/etc/docker/garbage.json", "not json") ].

Fixpoint assoc {A} (k : string) (l : list (string * A)) : option A :=
  match l with
  | [] => None
  | (k', v) :: l' => if String.eqb k k' then Some v else assoc k l'
  end.

Definition world : World :=
  {| user_Current := inl "/home/dev";
     os_Open := fun name =>
       match assoc name files with
       | Some content => inl content
       | None => inr ("open " +:+ name +:+ ": no such file or directory")
       end;
     json_Unmarshal_auths := fun data =>
       match assoc data [(wrappedJSON, wrappedAuths); (twinJSON, twinAuths);
                         (brokenJSON, brokenAuths); (flatJSON, ∅)] with
       | Some m => inl m
       | None => inr "invalid character 'o' in literal null (expecting 'u')"
       end;
     json_Unmarshal_confs := fun data =>
       match assoc data [(flatJSON, flatConfs)] with
       | Some m => inl m
       | None => inr "invalid character 'o' in literal null (expecting 'u')"
       end;
     range_confs := fun _ m => map_to_list m;
     range_auths := fun _ m => map_to_list m |}.

(** What [newAuthConfigurations] makes of the file with the two keys. *)
Definition userOne : types.AuthConfig :=
  {| types.Username := "u1"; types.Password := "p1"; types.Auth := "dTE6cDE=";
     types.Email := ""; types.ServerAddress := "reg.example.com";
     types.IdentityToken := ""; types.RegistryToken := "" |}.

Definition userTwo : types.AuthConfig :=
  {| types.Username := "u2"; types.Password := "p2"; types.Auth := "dTI6cDI=";
     types.Email := ""; types.ServerAddress := "reg.example.com/";
     types.IdentityToken := ""; types.RegistryToken := "" |}.

Definition twinParsed : AuthConfigs :=
  {| Configs := {[ "reg.example.com" := userOne; "reg.example.com/" := userTwo ]} |}.

(** Blocks: inline credentials next to a config file, a config file under
    the home directory, the file with the two keys, a file without the
    address, a file with an entry that does not decode, a file that does not
    exist, and a registry declared without credentials. *)
Definition inlineBlock : authBlock :=
  {| address := "reg.example.com/"; username := Some "u"; password := "";
     config_file := Some "~/.docker/config.json" |}.

Definition homeBlock : authBlock :=
  {| address := "registry.example.com/"; username := Some ""; password := "";
     config_file := Some "~/.docker/config.json" |}.

Definition twinBlock : authBlock :=
  {| address := "reg.example.com"; username := None; password := "";
     config_file := Some "/etc/docker/twin.json" |}.

Definition strangerBlock : authBlock :=
  {| address := "nope.example.com"; username := Some ""; password := "";
     config_file := Some "/etc/docker/flat.json" |}.

Definition brokenBlock : authBlock :=
  {| address := "registry.example.com"; username := Some ""; password := "";
     config_file := Some "/etc/docker/broken.json" |}.

Definition missingBlock : authBlock :=
  {| address := "registry.example.com"; username := Some ""; password := "";
     config_file := Some "/etc/docker/none.json" |}.

Definition bareBlock : authBlock :=
  {| address := "reg.example.com"; username := Some ""; password := "secret";
     config_file := None |}.

Definition normalize := AddressNormalizer.normalize.

End Demo.

(** ** Vocabulary of the statements *)

(** The record [authConfigs] stores for the entry [conf] found under the key
    [reg], when its [auth] value is present and decodes. *)
Definition entryOf (reg : string) (conf : dockerConfig) : option types.AuthConfig :=
  if String.eqb (Auth conf) "" then None
  else
    match decodeUserpass (Auth conf) with
    | Ok (user, pass) =>
        Some {| types.Username := user; types.Password := pass;
                types.Auth := Auth conf; types.Email := Email conf;
                types.ServerAddress := reg;
                types.IdentityToken := ""; types.RegistryToken := "" |}
    | Err _ => None
    end.

(** An entry that [authConfigs] cannot decode. *)
Definition undecodable (conf : dockerConfig) (e : error) : Prop :=
  Auth conf <> "" /\ decodeUserpass (Auth conf) = Err e.

(** The entries of a parsed file whose normalized key is [addr], in the order
    the scan of lines 206-212 visits them. *)
Definition hits (normalizeRegistryAddress : string -> string) (W : World) (i : nat)
    (addr : string) (auths : AuthConfigs) : list (string * types.AuthConfig) :=
  List.filter (fun entry => String.eqb addr (normalizeRegistryAddress (fst entry)))
    (range_auths W i (Configs auths)).

(** The record of a block: its normalized address with a user name and a
    password, every other field empty. *)
Definition credential (addr user pass : string) : types.AuthConfig :=
  {| types.Username := user; types.Password := pass; types.Auth := "";
     types.Email := ""; types.ServerAddress := addr;
     types.IdentityToken := ""; types.RegistryToken := "" |}.

Definition notFoundMessage (addr filePath : string) : string :=
  "Couldn't find registry config for '" +:+ addr +:+ "' in file: " +:+ filePath.

(** The system calls of the blocks of a list, the first of them being the
    [i]-th block of the pass. *)
Fixpoint tracesFrom (normalizeRegistryAddress : string -> string) (W : World) (i : nat)
    (blocks : list authBlock) : list call :=
  match blocks with
  | [] => []
  | auth :: blocks' =>
      trace (resolveBlock normalizeRegistryAddress W i auth)
      ++ tracesFrom normalizeRegistryAddress W (S i) blocks'
  end.

(** ** The caller: [providerConfigure]

    [Config], its method [NewClient], the client's [Ping] and
    [ProviderConfig] are declared in other files of the package; [Config] and
    [ProviderConfig] have the fields provider.go sets, and the two calls to
    the Docker daemon are taken as given, the client being any type. *)

Record Config : Type := {
  Host : string;
  Ca : string;
  Cert : string;
  Key : string;
  CertPath : string
}.

Module provider.
Record ProviderConfig (Client : Type) : Type := {
  DockerClient : Client;
  AuthConfigs : AuthConfigs
}.
Arguments DockerClient {Client} _.
Arguments AuthConfigs {Client} _.
End provider.

Record Daemon (Client : Type) : Type := {
  NewClient : Config -> Client + string;
  Ping : Client -> unit + string
}.
Arguments NewClient {Client} _ _.
Arguments Ping {Client} _ _.

(** What [providerConfigure] reads of [d]: the five string attributes, and
    [d.GetOk("registry_auth")], which is [None] when [ok] is false. *)
Record ResourceData : Type := {
  host : string;
  ca_material : string;
  cert_material : string;
  key_material : string;
  cert_path : string;
  registry_auth : option (list authBlock)
}.

(** What [providerConfigure] does to the outside, in order. *)
Inductive step : Type :=
  | StepNewClient (config : Config)
  | StepPing
  | StepSys (c : call).

(** [providerConfigure].  [&AuthConfigs{}] has a nil [Configs], which reads
    as the empty map. *)
Definition providerConfigure {Client : Type}
    (normalizeRegistryAddress : string -> string) (W : World) (D : Daemon Client)
    (d : ResourceData) : list step * result (provider.ProviderConfig Client) :=
  let config :=
    {| Host := host d; Ca := ca_material d; Cert := cert_material d;
       Key := key_material d; CertPath := cert_path d |} in
  match NewClient D config with
  | inr msg =>
      ([StepNewClient config],
       Err (Errorf ("Error initializing Docker client: " +:+ msg)))
  | inl client =>
      match Ping D client with
      | inr msg =>
          ([StepNewClient config; StepPing],
           Err (Errorf ("Error pinging Docker server: " +:+ msg)))
      | inl _ =>
          match registry_auth d with
          | Some authSet =>
              match providerSetToRegistryAuth normalizeRegistryAddress W authSet with
              | (t, Err err) =>
                  (StepNewClient config :: StepPing :: map StepSys t,
                   Err (Errorf ("Error loading registry auth config: " +:+ Error err)))
              | (t, Ok authConfigs) =>
                  (StepNewClient config :: StepPing :: map StepSys t,
                   Ok {| provider.DockerClient := client;
                         provider.AuthConfigs := authConfigs |})
              end
          | None =>
              ([StepNewClient config; StepPing],
               Ok {| provider.DockerClient := client;
                     provider.AuthConfigs := {| Configs := ∅ |} |})
          end
      end
  end.

(** ** More vocabulary *)

(** The block takes the config-file branch (line 185). *)
Definition fileBased (auth : authBlock) : bool :=
  negb (nonEmpty (username auth)) && nonEmpty (config_file auth).

(** The file-based block whose path starts with [~/] (line 187). *)
Definition homeBased (auth : authBlock) : bool :=
  fileBased auth && strings.HasPrefix (default "" (config_file auth)) "~/".

Definition isOpen (c : call) : bool :=
  match c with
  | CallOpen _ => true
  | CallUserCurrent => false
  end.

Definition isUserCurrent (c : call) : bool :=
  match c with
  | CallUserCurrent => true
  | CallOpen _ => false
  end.

(** Two blocks with the same address, the same mode and the same value of the
    fields that mode reads. *)
Definition sameEffective (b b' : authBlock) : Prop :=
  address b = address b' /\
  nonEmpty (username b) = nonEmpty (username b') /\
  (nonEmpty (username b) = true ->
   username b = username b' /\ password b = password b') /\
  (nonEmpty (username b) = false ->
   nonEmpty (config_file b) = nonEmpty (config_file b') /\
   (nonEmpty (config_file b) = true -> config_file b = config_file b')).

(** The input with carriage returns and line feeds removed. *)
Fixpoint stripNewlines (s : string) : string :=
  match s with
  | EmptyString => EmptyString
  | String c s' =>
      if base64.isNewline c then stripNewlines s' else String c (stripNewlines s')
  end.

(** The value of a result, if it has one. *)
Definition okOf {A} (r : result A) : option A :=
  match r with
  | Ok v => Some v
  | Err _ => None
  end.

(** The [Config] made of the attributes of [d] (lines 116-122). *)
Definition configOf (d : ResourceData) : Config :=
  {| Host := host d; Ca := ca_material d; Cert := cert_material d;
     Key := key_material d; CertPath := cert_path d |}.

(** Two worlds that differ at most in the order in which maps are visited. *)
Definition agree (W1 W2 : World) : Prop :=
  user_Current W1 = user_Current W2 /\
  (forall name, os_Open W1 name = os_Open W2 name) /\
  (forall data, json_Unmarshal_auths W1 data = json_Unmarshal_auths W2 data) /\
  (forall data, json_Unmarshal_confs W1 data = json_Unmarshal_confs W2 data).

(** The demo world with every map visited in the opposite order. *)
Definition backwards (W : World) : World :=
  {| user_Current := user_Current W;
     os_Open := os_Open W;
     json_Unmarshal_auths := json_Unmarshal_auths W;
     json_Unmarshal_confs := json_Unmarshal_confs W;
     range_confs := fun i m => reverse (range_confs W i m);
     range_auths := fun i m => reverse (range_auths W i m) |}.

(** A parsed file with two entries that do not decode, each in its own
    way: one has no colon, the other is not base64. *)
Definition twoBadAuths : gmap string dockerConfig :=
  {[ "a.example.com" := {| Auth := "bm9jb2xvbg=="; Email := "" |};
     "b.example.com" := {| Auth := "!!!!"; Email := "" |} ]}.

(** A world with one file that has a well-formed entry for
    [registry.example.com] and two entries that do not decode. *)
Module Mixed.

Definition mixedJSON : string :=
  "{'auths': {'registry.example.com': {'auth': 'dXNlcjpwYXNz'}, 'a.example.com': {'auth': 'bm9jb2xvbg=='}, 'b.example.com': {'auth': '!!!!'}}}".

Definition mixedAuths : gmap string dockerConfig :=
  {[ "registry.example.com" := {| Auth := "dXNlcjpwYXNz"; Email := "" |};
     "a.example.com" := {| Auth := "bm9jb2xvbg=="; Email := "" |};
     "b.example.com" := {| Auth := "!!!!"; Email := "" |} ]}.

Definition world : World :=
  {| user_Current := inl "/home/dev";
     os_Open := fun name =>
       if String.eqb name "/etc/docker/mixed.json" then inl mixedJSON
       else inr ("open " +:+ name +:+ ": no such file or directory");
     json_Unmarshal_auths := fun data =>
       if String.eqb data mixedJSON then inl mixedAuths
       else inr "unexpected end of JSON input";
     json_Unmarshal_confs := fun data => inr "unexpected end of JSON input";
     range_confs := fun _ m => map_to_list m;
     range_auths := fun _ m => map_to_list m |}.

Definition block : authBlock :=
  {| address := "registry.example.com"; username := None; password := "";
     config_file := Some "/etc/docker/mixed.json" |}.

End Mixed.

(** A small daemon for the runs: the client is its host, and the daemon at
    [tcp://down:2375] does not answer. *)
Module DemoDaemon.

Definition daemon : Daemon string :=
  {| NewClient := fun config =>
       if String.eqb (Host config) "" then inr "Empty host" else inl (Host config);
     Ping := fun client =>
       if String.eqb client "tcp://down:2375" then inr "connection refused" else inl tt |}.

Definition data (h : string) (auths : option (list authBlock)) : ResourceData :=
  {| host := h; ca_material := ""; cert_material := ""; key_material := "";
     cert_path := ""; registry_auth := auths |}.

End DemoDaemon.

(** ** Facts about [encoding/base64] *)

Section Base64Facts.
Import base64.

(** A [lor] whose operands have no bit in common is a sum. *)
Lemma lor_disjoint (u v n : Z) :
  0 <= n -> u mod 2 ^ n = 0 -> 0 <= v < 2 ^ n -> Z.lor u v = u + v.
Proof.
  intros Hn Hu Hv.
  assert (Hland : Z.land u v = 0).
  { apply Z.bits_inj'. intros i Hi.
    rewrite Z.land_spec, Z.bits_0.
    destruct (Z.lt_ge_cases i n) as [Hlt | Hge].
    - rewrite (Z.div_mod u (2 ^ n)) by lia.
      rewrite Hu, Z.add_0_r, Z.mul_comm, Z.mul_pow2_bits_low by lia.
      reflexivity.
    - rewrite <- (Z.mod_small v (2 ^ n)) by lia.
      rewrite Z.mod_pow2_bits_high by lia.
      apply andb_false_r. }
  rewrite <- Z.lxor_lor by assumption.
  symmetry. now apply Z.add_nocarry_lxor.
Qed.

Lemma uint_of_byte_range (c : ascii) : 0 <= uint_of_byte c < 256.
Proof.
  unfold uint_of_byte. pose proof (N_ascii_bounded c). lia.
Qed.

Lemma byte_of_uint_of_byte (c : ascii) (v : Z) :
  Z.land v 255 = uint_of_byte c -> byte_of_uint v = c.
Proof.
  unfold byte_of_uint, uint_of_byte. intros ->.
  rewrite N2Z.id. apply ascii_N_embedding.
Qed.

Lemma decodeMap_encode (k : Z) : 0 <= k < 64 -> decodeMap (encode k) = k.
Proof.
  intros Hk.
  assert (Hall : forallb (fun n => decodeMap (encode (Z.of_nat n)) =? Z.of_nat n)
                   (seq 0 64) = true) by (vm_compute; reflexivity).
  rewrite forallb_forall in Hall.
  specialize (Hall (Z.to_nat k)).
  rewrite Z2Nat.id in Hall by lia.
  apply Z.eqb_eq, Hall, in_seq. lia.
Qed.

Lemma decodeMap_sextet (val shift : Z) :
  decodeMap (sextet val shift) = Z.land (Z.shiftr val shift) 63.
Proof.
  unfold sextet. apply decodeMap_encode.
  change 63 with (Z.ones 6). rewrite Z.land_ones by lia.
  apply Z.mod_pos_bound. lia.
Qed.

Lemma sextet_valid (val shift : Z) : (decodeMap (sextet val shift) =? 255) = false.
Proof.
  rewrite decodeMap_sextet. apply Z.eqb_neq.
  change 63 with (Z.ones 6). rewrite Z.land_ones by lia.
  pose proof (Z.mod_pos_bound (Z.shiftr val shift) (2 ^ 6)). lia.
Qed.

(** Shifts and masks by constants as multiplication, division and
    remainder, and [lor] of disjoint operands as a sum. *)
Ltac to_arith :=
  change 63 with (Z.ones 6); change 255 with (Z.ones 8);
  rewrite ?Z.shiftl_mul_pow2, ?Z.shiftr_div_pow2, ?Z.land_ones by lia;
  repeat match goal with
    | |- context [Z.lor ?u ?v] =>
        lazymatch u with
        | context [Z.lor _ _] => fail
        | _ => idtac
        end;
        first [ rewrite (lor_disjoint u v 18) by (try lia; Z.div_mod_to_equations; lia)
              | rewrite (lor_disjoint u v 16) by (try lia; Z.div_mod_to_equations; lia)
              | rewrite (lor_disjoint u v 12) by (try lia; Z.div_mod_to_equations; lia)
              | rewrite (lor_disjoint u v 8) by (try lia; Z.div_mod_to_equations; lia)
              | rewrite (lor_disjoint u v 6) by (try lia; Z.div_mod_to_equations; lia) ]
    end;
  change (2 ^ 18) with 262144 in *; change (2 ^ 16) with 65536 in *;
  change (2 ^ 12) with 4096 in *; change (2 ^ 8) with 256 in *;
  change (2 ^ 6) with 64 in *; change (2 ^ 0) with 1 in *.

(** The sextets of a 24-bit value put back together. *)
Lemma assemble_sextets (val : Z) :
  0 <= val < 2 ^ 24 ->
  assemble [Z.land (Z.shiftr val 18) 63; Z.land (Z.shiftr val 12) 63;
            Z.land (Z.shiftr val 6) 63; Z.land (Z.shiftr val 0) 63] = val.
Proof.
  intros Hval. unfold assemble. cbn [nth].
  change (2 ^ 24) with 16777216 in Hval.
  to_arith. Z.div_mod_to_equations. lia.
Qed.

Lemma assemble_three (val : Z) :
  0 <= val < 2 ^ 24 -> val mod 2 ^ 6 = 0 ->
  assemble [Z.land (Z.shiftr val 18) 63; Z.land (Z.shiftr val 12) 63;
            Z.land (Z.shiftr val 6) 63] = val.
Proof.
  intros Hval Hlow. unfold assemble. cbn [nth].
  change (2 ^ 24) with 16777216 in Hval.
  to_arith. Z.div_mod_to_equations. lia.
Qed.

Lemma assemble_two (val : Z) :
  0 <= val < 2 ^ 24 -> val mod 2 ^ 12 = 0 ->
  assemble [Z.land (Z.shiftr val 18) 63; Z.land (Z.shiftr val 12) 63] = val.
Proof.
  intros Hval Hlow. unfold assemble. cbn [nth].
  change (2 ^ 24) with 16777216 in Hval.
  to_arith. Z.div_mod_to_equations. lia.
Qed.

Lemma pack3_arith (a b c : ascii) :
  pack3 a b c = uint_of_byte a * 65536 + uint_of_byte b * 256 + uint_of_byte c.
Proof.
  unfold pack3.
  pose proof (uint_of_byte_range a). pose proof (uint_of_byte_range b).
  pose proof (uint_of_byte_range c).
  to_arith. reflexivity.
Qed.

Lemma pack2_arith (a b : ascii) :
  Z.lor (Z.shiftl (uint_of_byte a) 16) (Z.shiftl (uint_of_byte b) 8)
  = uint_of_byte a * 65536 + uint_of_byte b * 256.
Proof.
  pose proof (uint_of_byte_range a). pose proof (uint_of_byte_range b).
  to_arith. reflexivity.
Qed.

Lemma bytesOf_pack3 (a b c : ascii) :
  bytesOf (pack3 a b c) 3 = String a (String b (String c EmptyString)).
Proof.
  pose proof (uint_of_byte_range a). pose proof (uint_of_byte_range b).
  pose proof (uint_of_byte_range c).
  unfold bytesOf. rewrite pack3_arith.
  f_equal; [| f_equal; [| f_equal]]; apply byte_of_uint_of_byte;
    to_arith; Z.div_mod_to_equations; lia.
Qed.

Lemma bytesOf_pack2 (a b : ascii) :
  bytesOf (Z.lor (Z.shiftl (uint_of_byte a) 16) (Z.shiftl (uint_of_byte b) 8)) 2
  = String a (String b EmptyString).
Proof.
  pose proof (uint_of_byte_range a). pose proof (uint_of_byte_range b).
  unfold bytesOf. rewrite pack2_arith.
  f_equal; [| f_equal]; apply byte_of_uint_of_byte;
    to_arith; Z.div_mod_to_equations; lia.
Qed.

Lemma bytesOf_pack1 (a : ascii) :
  bytesOf (Z.shiftl (uint_of_byte a) 16) 1 = String a EmptyString.
Proof.
  pose proof (uint_of_byte_range a).
  unfold bytesOf. f_equal. apply byte_of_uint_of_byte.
  to_arith. Z.div_mod_to_equations. lia.
Qed.

(** Strings three bytes at a time, the way [Encode] consumes them. *)
Lemma string_ind_by_three (P : string -> Prop) :
  P EmptyString ->
  (forall a, P (String a EmptyString)) ->
  (forall a b, P (String a (String b EmptyString))) ->
  (forall a b c s, P s -> P (String a (String b (String c s)))) ->
  forall s, P s.
Proof.
  intros H0 H1 H2 H3 s.
  enough (P s /\ (forall a, P (String a s)) /\ (forall a b, P (String a (String b s))))
    by tauto.
  induction s as [| c s (IH0 & IH1 & IH2)]; repeat split; auto.
Qed.

(** One valid input byte: it joins the quantum being read. *)
Lemma decodeFrom_valid (c : ascii) (rest : string) (si : Z) (dbuf : list Z) :
  (decodeMap c =? 255) = false ->
  decodeFrom (String c rest) si dbuf =
    if (length (dbuf ++ [decodeMap c]) =? 4)%nat
    then prepend (bytesOf (assemble (dbuf ++ [decodeMap c])) 3)
                 (decodeFrom rest (si + 1) [])
    else decodeFrom rest (si + 1) (dbuf ++ [decodeMap c]).
Proof. intros Hc. cbn [decodeFrom]. rewrite Hc. reflexivity. Qed.

(** The decoder undoes the encoder, from any input offset. *)
Lemma decodeFrom_EncodeToString (s : string) :
  forall si, decodeFrom (EncodeToString s) si [] = Ok s.
Proof.
  induction s as [| a | a b | a b c s IH] using string_ind_by_three; intros si.
  - reflexivity.
  - cbn [EncodeToString].
    repeat (rewrite decodeFrom_valid by apply sextet_valid;
            cbn [app length Nat.eqb]; rewrite decodeMap_sextet).
    assert (Hpad : forall r i d, decodeFrom (String padChar r) i d =
      match length d with
      | 0%nat | 1%nat => Err (CorruptInputError (i + 1 - 1))
      | 2%nat =>
          match skipNewlines r (i + 1) with
          | (EmptyString, i') => Err (CorruptInputError i')
          | (String c2 rest2, i') =>
              if negb (Ascii.eqb c2 padChar) then Err (CorruptInputError (i' - 1))
              else finish rest2 (i' + 1) (bytesOf (assemble d) 1)
          end
      | _ => finish r (i + 1) (bytesOf (assemble d) 2)
      end) by reflexivity.
    rewrite Hpad. cbn [length skipNewlines isNewline].
    change (isNewline padChar) with false. cbv iota.
    change (negb (Ascii.eqb padChar padChar)) with false. cbv iota.
    unfold finish. cbn [skipNewlines].
    pose proof (uint_of_byte_range a).
    rewrite assemble_two, bytesOf_pack1; [reflexivity | |];
      to_arith; try lia; Z.div_mod_to_equations; lia.
  - cbn [EncodeToString].
    repeat (rewrite decodeFrom_valid by apply sextet_valid;
            cbn [app length Nat.eqb]; rewrite decodeMap_sextet).
    change (decodeFrom (String padChar EmptyString) ?i ?d)
      with (finish EmptyString (i + 1) (bytesOf (assemble d) 2)).
    unfold finish. cbn [skipNewlines].
    pose proof (uint_of_byte_range a). pose proof (uint_of_byte_range b).
    rewrite assemble_three, bytesOf_pack2; [reflexivity | |];
      rewrite pack2_arith; to_arith; try lia; Z.div_mod_to_equations; lia.
  - cbn [EncodeToString].
    repeat (rewrite decodeFrom_valid by apply sextet_valid;
            cbn [app length Nat.eqb]; rewrite decodeMap_sextet).
    pose proof (uint_of_byte_range a). pose proof (uint_of_byte_range b).
    pose proof (uint_of_byte_range c).
    rewrite assemble_sextets, bytesOf_pack3, IH; [reflexivity |].
    rewrite pack3_arith. lia.
Qed.

Lemma DecodeString_EncodeToString (s : string) :
  DecodeString (EncodeToString s) = Ok s.
Proof. apply decodeFrom_EncodeToString. Qed.

End Base64Facts.

(** ** Facts about the [strings] package *)

Section StringsFacts.
Import strings.

Lemma append_nil (s : string) : "" +:+ s = s.
Proof. reflexivity. Qed.

Lemma append_cons (c : ascii) (s t : string) : String c s +:+ t = String c (s +:+ t).
Proof. reflexivity. Qed.

Lemma cut_first (u p : string) (sep : ascii) :
  ContainsByte u sep = false -> cut (u +:+ String sep p) sep = Some (u, p).
Proof.
  induction u as [| c u IH]; rewrite ?append_nil, ?append_cons; cbn.
  - intros _. now rewrite Ascii.eqb_refl.
  - destruct (Ascii.eqb c sep); [discriminate |].
    intros Hu. now rewrite IH.
Qed.

Lemma cut_none (s : string) (sep : ascii) :
  ContainsByte s sep = false -> cut s sep = None.
Proof.
  induction s as [| c s IH]; cbn [ContainsByte cut]; [reflexivity |].
  destruct (Ascii.eqb c sep); [discriminate |].
  intros Hs. now rewrite IH.
Qed.

Lemma cut_some (s before after : string) (sep : ascii) :
  cut s sep = Some (before, after) ->
  s = before +:+ String sep after /\ ContainsByte before sep = false.
Proof.
  revert before. induction s as [| c s IH]; intros before; cbn [cut]; [discriminate |].
  destruct (Ascii.eqb c sep) eqn:Hc.
  - intros [= <- <-]. apply Ascii.eqb_eq in Hc as ->. now split.
  - destruct (cut s sep) as [[b a] |]; [| discriminate].
    intros [= <- <-]. destruct (IH b eq_refl) as [-> Hb].
    rewrite append_cons. cbn. now rewrite Hc.
Qed.

End StringsFacts.

(** ** The address normalizer *)

Section NormalizerFacts.
Import AddressNormalizer.








End NormalizerFacts.

(** ** The packed [auth] value *)

Section DecoderFacts.

(** C4: a base64 error is returned as it is; the decoded bytes are cut at
    their first colon, so the user name is what precedes it and the password
    everything after it, further colons included, and a pair is returned in
    no other case; decoded bytes without a colon give the sentinel
    [ErrCannotParseDockercfg], which is no base64 error. *)
Theorem decodeUserpass_first_colon :
  (forall auth e, base64.DecodeString auth = Err e -> decodeUserpass auth = Err e) /\
  (forall auth u p,
      base64.DecodeString auth = Ok (u +:+ ":" +:+ p) ->
      strings.ContainsByte u ":" = false ->
      decodeUserpass auth = Ok (u, p)) /\
  (forall u p,
      strings.ContainsByte u ":" = false ->
      decodeUserpass (base64.EncodeToString (u +:+ ":" +:+ p)) = Ok (u, p)) /\
  (forall auth data,
      base64.DecodeString auth = Ok data ->
      strings.ContainsByte data ":" = false ->
      decodeUserpass auth = Err ErrCannotParseDockercfg) /\
  (forall auth u p,
      decodeUserpass auth = Ok (u, p) ->
      base64.DecodeString auth = Ok (u +:+ ":" +:+ p) /\
      strings.ContainsByte u ":" = false) /\
  (forall offset, ErrCannotParseDockercfg <> CorruptInputError offset).
Proof.
  assert (Hcut : forall auth u p,
      base64.DecodeString auth = Ok (u +:+ ":" +:+ p) ->
      strings.ContainsByte u ":" = false ->
      decodeUserpass auth = Ok (u, p)).
  { intros auth u p Hdec Hu. unfold decodeUserpass, strings.SplitN2.
    rewrite Hdec. change (":" +:+ p) with (String ":" p).
    now rewrite cut_first. }
  split; [| split; [| split; [| split; [| split]]]].
  - intros auth e Hdec. unfold decodeUserpass. now rewrite Hdec.
  - exact Hcut.
  - intros u p Hu. apply Hcut; [apply DecodeString_EncodeToString | exact Hu].
  - intros auth data Hdec Hdata. unfold decodeUserpass, strings.SplitN2.
    now rewrite Hdec, cut_none.
  - intros auth u p. unfold decodeUserpass, strings.SplitN2.
    destruct (base64.DecodeString auth) as [data | e]; [| discriminate].
    destruct (strings.cut data ":") as [[before after] |] eqn:Hparts; [| discriminate].
    intros [= <- <-]. destruct (cut_some _ _ _ _ Hparts) as [-> Hbefore].
    now split.
  - discriminate.
Qed.

Lemma decodeUserpass_first_colon_witness :
  decodeUserpass "not-valid-base64!!" = Err (CorruptInputError 3) /\
  decodeUserpass "dXNlcjpwYTpzcw==" = Ok ("user", "pa:ss") /\
  decodeUserpass (base64.EncodeToString ("user" +:+ ":" +:+ "pa:ss")) = Ok ("user", "pa:ss") /\
  decodeUserpass "bm9jb2xvbg==" = Err ErrCannotParseDockercfg.
Proof.
  destruct decodeUserpass_first_colon as (H1 & H2 & H3 & H4 & _ & _).
  split; [apply H1; reflexivity |].
  split; [apply (H2 _ "user" "pa:ss"); reflexivity |].
  split; [apply H3; reflexivity |].
  apply (H4 _ "nocolon"); reflexivity.
Defined.

End DecoderFacts.

(** ** The credentials file *)

Section ParserFacts.
Variable W : World.

Lemma parseDockerConfig_fallback (byteData : string) :
  json_Unmarshal_auths W byteData = inl ∅ \/
  (exists msg, json_Unmarshal_auths W byteData = inr msg) ->
  parseDockerConfig W byteData = jsonUnmarshal (json_Unmarshal_confs W) byteData.
Proof.
  unfold parseDockerConfig.
  intros [H | [msg H]]; unfold jsonUnmarshal at 1; rewrite H; [| reflexivity].
  now rewrite map_size_empty.
Qed.

(** C3: the wrapped shape is tried first and its [auths] map is the result
    exactly when that deserialization succeeds with a map that is not empty;
    in every other case the result is that of deserializing the same bytes as
    a flat map, and when that fails too the error returned is the one of the
    second attempt, with the parser's message. *)
Theorem parseDockerConfig_two_shapes (byteData : string) :
  (forall auths,
      json_Unmarshal_auths W byteData = inl auths -> auths <> ∅ ->
      parseDockerConfig W byteData = Ok auths) /\
  (json_Unmarshal_auths W byteData = inl ∅ \/
   (exists msg, json_Unmarshal_auths W byteData = inr msg) ->
   (forall confs,
       json_Unmarshal_confs W byteData = inl confs ->
       parseDockerConfig W byteData = Ok confs) /\
   (forall msg,
       json_Unmarshal_confs W byteData = inr msg ->
       parseDockerConfig W byteData = Err (UnmarshalError msg) /\
       Error (UnmarshalError msg) = msg)).
Proof.
  split.
  - intros auths Hauths Hne. unfold parseDockerConfig, jsonUnmarshal.
    rewrite Hauths. apply map_size_non_empty_iff in Hne.
    destruct (Nat.ltb_spec 0 (size auths)); [reflexivity | lia].
  - intros Hfirst. rewrite (parseDockerConfig_fallback _ Hfirst).
    unfold jsonUnmarshal. split.
    + now intros confs ->.
    + now intros msg ->.
Qed.

End ParserFacts.

(** ** The loop of [authConfigs] *)

Section AuthConfigsFacts.

Lemma eqb_empty (s : string) : String.eqb s "" = true <-> s = "".
Proof. apply String.eqb_eq. Qed.

Lemma eqb_nonempty (s : string) : String.eqb s "" = false <-> s <> "".
Proof. apply String.eqb_neq. Qed.

(** What the loop leaves in the map: the decoded entries under their own
    keys, over what was there before. *)
Lemma authConfigsLoop_lookup (entries : list (string * dockerConfig)) :
  forall c0 c,
    NoDup entries.*1 ->
    authConfigsLoop entries c0 = Ok c ->
    forall reg,
      Configs c !! reg =
        match (list_to_map entries : gmap string dockerConfig) !! reg ≫= entryOf reg with
        | Some ac => Some ac
        | None => c0 !! reg
        end.
Proof.
  induction entries as [| [reg0 conf0] entries IH]; intros c0 c Hnd Hloop reg.
  - injection Hloop as <-. now rewrite list_to_map_nil, lookup_empty.
  - apply NoDup_cons in Hnd as [Hfresh Hnd].
    cbn [authConfigsLoop] in Hloop. rewrite list_to_map_cons.
    assert (Hnone : (list_to_map entries : gmap string dockerConfig) !! reg0 = None)
      by now apply not_elem_of_list_to_map_1.
    destruct (decide (reg = reg0)) as [-> | Hne].
    + rewrite lookup_insert_eq. cbn [mbind option_bind]. unfold entryOf.
      destruct (String.eqb (Auth conf0) "").
      * rewrite (IH _ _ Hnd Hloop reg0), Hnone. reflexivity.
      * destruct (decodeUserpass (Auth conf0)) as [[user pass] | e]; [| discriminate].
        rewrite (IH _ _ Hnd Hloop reg0), Hnone. cbn [mbind option_bind].
        now rewrite lookup_insert_eq.
    + rewrite lookup_insert_ne by congruence.
      destruct (String.eqb (Auth conf0) "").
      * apply (IH _ _ Hnd Hloop).
      * destruct (decodeUserpass (Auth conf0)) as [[user pass] | e]; [| discriminate].
        rewrite (IH _ _ Hnd Hloop reg). now rewrite lookup_insert_ne by congruence.
Qed.

(** The loop fails only at an entry it cannot decode, with the error of
    that entry. *)
Lemma authConfigsLoop_err (entries : list (string * dockerConfig)) :
  forall c0 e,
    authConfigsLoop entries c0 = Err e ->
    exists reg conf, (reg, conf) ∈ entries /\ undecodable conf e.
Proof.
  induction entries as [| [reg0 conf0] entries IH]; intros c0 e Hloop; [discriminate |].
  cbn [authConfigsLoop] in Hloop.
  destruct (String.eqb (Auth conf0) "") eqn:Hempty.
  - destruct (IH _ _ Hloop) as (reg & conf & Hin & Hbad).
    exists reg, conf. split; [apply elem_of_cons; now right | exact Hbad].
  - destruct (decodeUserpass (Auth conf0)) as [[user pass] | e'] eqn:Hdec.
    + destruct (IH _ _ Hloop) as (reg & conf & Hin & Hbad).
      exists reg, conf. split; [apply elem_of_cons; now right | exact Hbad].
    + injection Hloop as <-. exists reg0, conf0.
      split; [apply elem_of_cons; now left |].
      split; [now apply eqb_nonempty | exact Hdec].
Qed.

(** The loop succeeds only when every entry with an [auth] value decodes. *)
Lemma authConfigsLoop_ok (entries : list (string * dockerConfig)) :
  forall c0 c,
    authConfigsLoop entries c0 = Ok c ->
    forall reg conf e, (reg, conf) ∈ entries -> ~ undecodable conf e.
Proof.
  induction entries as [| [reg0 conf0] entries IH];
    intros c0 c Hloop reg conf e Hin [Hne Hbad].
  - now apply elem_of_nil in Hin.
  - cbn [authConfigsLoop] in Hloop.
    apply elem_of_cons in Hin as [[= -> ->] | Hin].
    + apply eqb_nonempty in Hne. rewrite Hne, Hbad in Hloop. discriminate.
    + destruct (String.eqb (Auth conf0) "").
      * now apply (IH _ _ Hloop reg conf e Hin).
      * destruct (decodeUserpass (Auth conf0)) as [[user pass] | e']; [| discriminate].
        now apply (IH _ _ Hloop reg conf e Hin).
Qed.

Variable W : World.
Hypothesis Hsound : range_sound W.

Lemma range_confs_elem (i : nat) (confs : gmap string dockerConfig) reg conf :
  (reg, conf) ∈ range_confs W i confs <-> confs !! reg = Some conf.
Proof.
  destruct Hsound as [Hperm _]. rewrite (Hperm i confs).
  apply elem_of_map_to_list.
Qed.

Lemma range_confs_to_map (i : nat) (confs : gmap string dockerConfig) :
  NoDup (range_confs W i confs).*1 /\
  (list_to_map (range_confs W i confs) : gmap string dockerConfig) = confs.
Proof.
  destruct Hsound as [Hperm _].
  assert (Hnd : NoDup (range_confs W i confs).*1).
  { rewrite (Hperm i confs). apply NoDup_fst_map_to_list. }
  split; [exact Hnd |].
  rewrite (list_to_map_proper _ _ Hnd (Hperm i confs)).
  apply list_to_map_to_list.
Qed.

Lemma authConfigs_lookup (i : nat) (confs : gmap string dockerConfig) (c : AuthConfigs) :
  authConfigs W i confs = Ok c ->
  forall reg, Configs c !! reg = confs !! reg ≫= entryOf reg.
Proof.
  intros Hok reg. destruct (range_confs_to_map i confs) as [Hnd Hmap].
  rewrite (authConfigsLoop_lookup _ _ _ Hnd Hok reg), Hmap, lookup_empty.
  now destruct (confs !! reg ≫= entryOf reg).
Qed.

(** [authConfigs] fails only with the error of an entry of the file that
    cannot be decoded. *)
Lemma authConfigs_err (i : nat) (confs : gmap string dockerConfig) (e : error) :
  authConfigs W i confs = Err e ->
  exists reg conf, confs !! reg = Some conf /\ undecodable conf e.
Proof.
  intros He. destruct (authConfigsLoop_err _ _ _ He) as (reg & conf & Hin & Hbad).
  exists reg, conf. split; [now apply (range_confs_elem i) | exact Hbad].
Qed.

(** C7: an entry whose [auth] is empty never makes [authConfigs] fail and is
    absent from the result; every entry whose [auth] is not empty is decoded
    and stored under its own key, which is also its [ServerAddress]; no other
    key is in the result. *)
Theorem authConfigs_skips_empty_auth (i : nat) (confs : gmap string dockerConfig) :
  ((forall reg conf,
       confs !! reg = Some conf -> Auth conf <> "" ->
       exists up, decodeUserpass (Auth conf) = Ok up) ->
   exists c, authConfigs W i confs = Ok c) /\
  (forall c,
      authConfigs W i confs = Ok c ->
      forall reg,
        match confs !! reg with
        | None => Configs c !! reg = None
        | Some conf =>
            (Auth conf = "" -> Configs c !! reg = None) /\
            (Auth conf <> "" ->
             exists user pass,
               decodeUserpass (Auth conf) = Ok (user, pass) /\
               Configs c !! reg =
                 Some {| types.Username := user; types.Password := pass;
                         types.Auth := Auth conf; types.Email := Email conf;
                         types.ServerAddress := reg;
                         types.IdentityToken := ""; types.RegistryToken := "" |})
        end).
Proof.
  split.
  - intros Hgood.
    destruct (authConfigs W i confs) as [c | e] eqn:Hrun; [now exists c |].
    destruct (authConfigs_err _ _ _ Hrun) as (reg & conf & Hin & Hne & Hbad).
    destruct (Hgood reg conf Hin Hne) as [up Hup]. congruence.
  - intros c Hok reg. rewrite (authConfigs_lookup _ _ _ Hok reg).
    destruct (confs !! reg) as [conf |] eqn:Hconf; [| reflexivity].
    cbn [mbind option_bind]. unfold entryOf. split.
    + intros Hempty. apply eqb_empty in Hempty. now rewrite Hempty.
    + intros Hne.
      destruct (decodeUserpass (Auth conf)) as [[user pass] | e] eqn:Hdec.
      * exists user, pass. apply eqb_nonempty in Hne. now rewrite Hne.
      * exfalso. apply (authConfigsLoop_ok _ _ _ Hok reg conf e).
        -- now apply range_confs_elem.
        -- now split.
Qed.

End AuthConfigsFacts.

Lemma demo_world_sound : range_sound Demo.world.
Proof. split; reflexivity. Qed.

Lemma authConfigs_skips_empty_auth_witness :
  exists c,
    authConfigs Demo.world 0 Demo.wrappedAuths = Ok c /\
    Configs c !! "quiet.example.com" = None /\
    Configs c !! "registry.example.com" =
      Some {| types.Username := "user"; types.Password := "pass";
              types.Auth := "dXNlcjpwYXNz"; types.Email := "u@example.com";
              types.ServerAddress := "registry.example.com";
              types.IdentityToken := ""; types.RegistryToken := "" |}.
Proof.
  destruct (authConfigs_skips_empty_auth Demo.world demo_world_sound 0 Demo.wrappedAuths)
    as [Hrun Hlookup].
  destruct Hrun as [c Hc].
  { intros reg conf Hreg Hne. apply elem_of_map_to_list in Hreg.
    let l := eval vm_compute in (map_to_list Demo.wrappedAuths) in
    change (map_to_list Demo.wrappedAuths) with l in Hreg.
    repeat (apply elem_of_cons in Hreg as [[= -> ->] | Hreg];
            [first [now destruct Hne | eexists; vm_compute; reflexivity] |]).
    now apply elem_of_nil in Hreg. }
  exists c. split; [exact Hc |].
  pose proof (Hlookup c Hc "quiet.example.com") as Hquiet.
  pose proof (Hlookup c Hc "registry.example.com") as Hreg.
  change (Demo.wrappedAuths !! "quiet.example.com")
    with (Some {| Auth := ""; Email := "" |}) in Hquiet.
  change (Demo.wrappedAuths !! "registry.example.com")
    with (Some {| Auth := "dXNlcjpwYXNz"; Email := "u@example.com" |}) in Hreg.
  split.
  - now apply Hquiet.
  - destruct Hreg as [_ Hreg]. destruct Hreg as (user & pass & Hdec & Hget); [discriminate |].
    vm_compute in Hdec. injection Hdec as <- <-. exact Hget.
Defined.

Lemma parseDockerConfig_two_shapes_witness :
  parseDockerConfig Demo.world Demo.wrappedJSON = Ok Demo.wrappedAuths /\
  parseDockerConfig Demo.world Demo.flatJSON = Ok Demo.flatConfs /\
  parseDockerConfig Demo.world "not json"
  = Err (UnmarshalError "invalid character 'o' in literal null (expecting 'u')").
Proof.
  split; [| split].
  - apply (proj1 (parseDockerConfig_two_shapes Demo.world Demo.wrappedJSON));
      [reflexivity |].
    intros Hempty. apply (f_equal size) in Hempty. vm_compute in Hempty. discriminate.
  - apply (proj2 (parseDockerConfig_two_shapes Demo.world Demo.flatJSON));
      [left |]; reflexivity.
  - apply (proj2 (parseDockerConfig_two_shapes Demo.world "not json"));
      [right; eexists |]; reflexivity.
Defined.

(** ** Errors of the decoder *)

Section DecodeErrors.
Import base64.

Lemma finish_err (rest : string) (si : Z) (out : string) (e : error) :
  finish rest si out = Err e -> exists offset, e = CorruptInputError offset.
Proof.
  unfold finish. destruct (skipNewlines rest si) as [[| c r] si']; [discriminate |].
  intros [= <-]. now eexists.
Qed.

Lemma decodeFrom_err (src : string) :
  forall si dbuf e,
    decodeFrom src si dbuf = Err e -> exists offset, e = CorruptInputError offset.
Proof.
  induction src as [| c rest IH]; intros si dbuf e; cbn [decodeFrom].
  - destruct dbuf; [discriminate |]. intros [= <-]. now eexists.
  - destruct (negb (decodeMap c =? 255)).
    + destruct (length (dbuf ++ [decodeMap c]) =? 4)%nat; [| apply IH].
      destruct (decodeFrom rest (si + 1) []) as [out | e'] eqn:Hrest; [discriminate |].
      intros [= <-]. now apply (IH _ _ _ Hrest).
    + destruct (isNewline c); [apply IH |].
      destruct (negb (Ascii.eqb c padChar)); [intros [= <-]; now eexists |].
      destruct (length dbuf) as [| [| [| n]]];
        try (intros [= <-]; now eexists); [| apply finish_err].
      destruct (skipNewlines rest (si + 1)) as [[| c2 rest2] si'];
        [intros [= <-]; now eexists |].
      destruct (negb (Ascii.eqb c2 padChar)); [intros [= <-]; now eexists |].
      apply finish_err.
Qed.

(** The two ways an [auth] value can fail to decode. *)
Lemma decodeUserpass_err (auth : string) (e : error) :
  decodeUserpass auth = Err e ->
  e = ErrCannotParseDockercfg \/ exists offset, e = CorruptInputError offset.
Proof.
  unfold decodeUserpass, DecodeString.
  destruct (decodeFrom auth 0 []) as [data | e'] eqn:Hdec.
  - destruct (strings.SplitN2 data ":") as [| user [| pass [| ? ?]]];
      first [discriminate | intros [= <-]; now left].
  - intros [= <-]. right. now apply (decodeFrom_err _ _ _ _ Hdec).
Qed.

End DecodeErrors.

(** ** One block *)

Section BlockFacts.
(** [N] is [normalizeRegistryAddress]. *)
Variable N : string -> string.
Variable W : World.

(** The scan keeps the credentials of the last entry it visits whose
    normalized key is the address looked for. *)
Lemma scan_last (entries : list (string * types.AuthConfig)) :
  forall authConfig found,
    fold_left (scanStep N) entries (authConfig, found) =
      match last (List.filter
                    (fun entry => String.eqb (types.ServerAddress authConfig)
                                    (N (fst entry)))
                    entries) with
      | Some (_, authFileConfig) =>
          (types.setPassword (types.Password authFileConfig)
             (types.setUsername (types.Username authFileConfig) authConfig), true)
      | None => (authConfig, found)
      end.
Proof.
  induction entries as [| [registry authFileConfig] entries IH]; intros authConfig found;
    [reflexivity |].
  cbn [fold_left scanStep List.filter fst].
  destruct (String.eqb (types.ServerAddress authConfig)
              (N registry)).
  - rewrite IH. cbn [types.ServerAddress types.setPassword types.setUsername].
    rewrite last_cons.
    now destruct (last (List.filter _ entries)) as [[registry' authFileConfig'] |].
  - apply IH.
Qed.

(** The config-file branch, step by step. *)
Lemma fromConfigFile_run (i : nat) (authConfig : types.AuthConfig) (configFile : string) :
  fromConfigFile N W i authConfig configFile =
    match expandHome W configFile with
    | (t, Err e) => (t, Err e)
    | (t, Ok filePath) =>
        match os_Open W filePath with
        | inr msg =>
            (t ++ [CallOpen filePath],
             Err (Errorf ("Error opening docker registry config file: " +:+ msg)))
        | inl r =>
            match newAuthConfigurations W i r with
            | Err e =>
                (t ++ [CallOpen filePath],
                 Err (Errorf ("Error parsing docker registry config json: " +:+ Error e)))
            | Ok auths =>
                match last (hits N W i (types.ServerAddress authConfig) auths) with
                | Some (_, authFileConfig) =>
                    (t ++ [CallOpen filePath],
                     Ok (types.setPassword (types.Password authFileConfig)
                           (types.setUsername (types.Username authFileConfig) authConfig)))
                | None =>
                    (t ++ [CallOpen filePath],
                     Err (Errorf (notFoundMessage (types.ServerAddress authConfig) filePath)))
                end
            end
        end
    end.
Proof.
  unfold fromConfigFile, io_bind.
  destruct (expandHome W configFile) as [t [filePath | e]]; [| reflexivity].
  cbn [fst snd]. unfold osOpen, wrapErr.
  destruct (os_Open W filePath) as [r | msg]; cbn [fst snd Error]; [| reflexivity].
  unfold io_lift. destruct (newAuthConfigurations W i r) as [auths | e];
    cbn [fst snd]; [| reflexivity].
  rewrite scan_last. fold (hits N W i (types.ServerAddress authConfig) auths).
  destruct (last (hits N W i (types.ServerAddress authConfig) auths))
    as [[registry authFileConfig] |]; reflexivity.
Qed.

Lemma nonEmpty_Some (f : string) : f <> "" -> nonEmpty (Some f) = true.
Proof. intros Hf. cbn. now apply eqb_nonempty in Hf as ->. Qed.

(** A block without a user name that names a config file takes the
    config-file branch, starting from the record that has only the
    normalized address. *)
Lemma resolveBlock_file (i : nat) (auth : authBlock) (f : string) :
  nonEmpty (username auth) = false -> config_file auth = Some f -> f <> "" ->
  resolveBlock N W i auth = fromConfigFile N W i (credential (N (address auth)) "" "") f.
Proof.
  intros Hu Hf Hne. unfold resolveBlock.
  now rewrite Hu, Hf, (nonEmpty_Some _ Hne).
Qed.

Hypothesis Hsound : range_sound W.

Lemma hits_elem (i : nat) (addr : string) (auths : AuthConfigs) reg fc :
  (reg, fc) ∈ hits N W i addr auths <->
  Configs auths !! reg = Some fc /\ N reg = addr.
Proof.
  destruct Hsound as [_ Hperm]. unfold hits.
  rewrite list_elem_of_In, filter_In, <- list_elem_of_In, (Hperm i (Configs auths)).
  rewrite elem_of_map_to_list. cbn [fst].
  rewrite String.eqb_eq. intuition congruence.
Qed.

Lemma hits_none (i : nat) (addr : string) (auths : AuthConfigs) :
  last (hits N W i addr auths) = None <->
  (forall reg fc, Configs auths !! reg = Some fc -> N reg <> addr).
Proof.
  rewrite last_None. split.
  - intros Hnil reg fc Hreg Hmatch.
    assert (Hin : (reg, fc) ∈ hits N W i addr auths) by now apply hits_elem.
    rewrite Hnil in Hin. now apply elem_of_nil in Hin.
  - intros Hnone. destruct (hits N W i addr auths) as [| [reg fc] l] eqn:Hhits;
      [reflexivity |].
    assert (Hin : (reg, fc) ∈ hits N W i addr auths)
      by (rewrite Hhits; apply elem_of_cons; now left).
    apply hits_elem in Hin as [Hreg Hmatch]. now destruct (Hnone reg fc Hreg).
Qed.

(** C1, as the code has it: the scan visits every entry of the parsed file
    and does not stop at a match, so the credentials are those of the last
    entry visited whose normalized key is the block's normalized address
    (the only such entry when one key matches); when no key of the file
    matches, resolution fails with the message that names the normalized
    address and the path of the file that was opened. *)
Theorem file_lookup_takes_last_match (i : nat) (auth : authBlock)
    (f path content : string) (t : list call) (auths : AuthConfigs) :
  nonEmpty (username auth) = false -> config_file auth = Some f -> f <> "" ->
  expandHome W f = (t, Ok path) ->
  os_Open W path = inl content ->
  newAuthConfigurations W i content = Ok auths ->
  let addr := N (address auth) in
  ((forall reg fc, Configs auths !! reg = Some fc -> N reg <> addr) ->
   outcome (resolveBlock N W i auth) = Err (Errorf (notFoundMessage addr path))) /\
  (forall reg fc,
      last (hits N W i addr auths) = Some (reg, fc) ->
      Configs auths !! reg = Some fc /\ N reg = addr /\
      outcome (resolveBlock N W i auth)
      = Ok (credential addr (types.Username fc) (types.Password fc))) /\
  (forall reg fc,
      Configs auths !! reg = Some fc -> N reg = addr ->
      (forall reg', is_Some (Configs auths !! reg') -> N reg' = addr -> reg' = reg) ->
      outcome (resolveBlock N W i auth)
      = Ok (credential addr (types.Username fc) (types.Password fc))) /\
  ((exists reg fc, Configs auths !! reg = Some fc /\ N reg = addr) ->
   exists ac, outcome (resolveBlock N W i auth) = Ok ac).
Proof.
  intros Hu Hf Hne Hpath Hopen Hparse addr.
  rewrite (resolveBlock_file _ _ _ Hu Hf Hne), fromConfigFile_run, Hpath, Hopen, Hparse.
  change (types.ServerAddress (credential (N (address auth)) "" "")) with addr.
  assert (Hlast : forall reg fc,
    last (hits N W i addr auths) = Some (reg, fc) ->
    Configs auths !! reg = Some fc /\ N reg = addr).
  { intros reg fc Hl. apply (proj1 (hits_elem i addr auths reg fc)).
    now apply last_Some_elem_of. }
  split; [| split; [| split]].
  - intros Hnone. apply (proj2 (hits_none i addr auths)) in Hnone. now rewrite Hnone.
  - intros reg fc Hl. destruct (Hlast _ _ Hl) as [Hreg Hmatch].
    split; [exact Hreg | split; [exact Hmatch |]]. now rewrite Hl.
  - intros reg fc Hreg Hmatch Honly.
    destruct (last (hits N W i addr auths)) as [[reg' fc'] |] eqn:Hl.
    + destruct (Hlast _ _ eq_refl) as [Hreg' Hmatch'].
      assert (reg' = reg) as Heq by (apply Honly; [now exists fc' | exact Hmatch']).
      subst reg'. now replace fc' with fc by congruence.
    + exfalso. apply (proj1 (hits_none i addr auths) Hl reg fc Hreg Hmatch).
  - intros (reg & fc & Hreg & Hmatch).
    destruct (last (hits N W i addr auths)) as [[reg' fc'] |] eqn:Hl; [now eexists |].
    exfalso. apply (proj1 (hits_none i addr auths) Hl reg fc Hreg Hmatch).
Qed.

Lemma nonEmpty_true (v : option string) :
  nonEmpty v = true -> exists f, v = Some f /\ f <> "".
Proof.
  destruct v as [f |]; [| discriminate]. cbn. intros Hf. exists f.
  split; [reflexivity |]. apply eqb_nonempty.
  now destruct (String.eqb f "").
Qed.

Lemma newAuthConfigurations_ok (i : nat) (r : string) (auths : AuthConfigs) :
  newAuthConfigurations W i r = Ok auths ->
  exists confs, parseDockerConfig W r = Ok confs /\ authConfigs W i confs = Ok auths.
Proof.
  unfold newAuthConfigurations.
  destruct (parseDockerConfig W r) as [confs | e]; [| discriminate].
  destruct (authConfigs W i confs) as [c | e] eqn:Hc; [| discriminate].
  intros [= <-]. now exists confs.
Qed.

Lemma entryOf_Some (reg : string) (conf : dockerConfig) (fc : types.AuthConfig) :
  entryOf reg conf = Some fc ->
  Auth conf <> "" /\ types.Auth fc = Auth conf /\ types.Email fc = Email conf /\
  types.ServerAddress fc = reg /\
  decodeUserpass (Auth conf) = Ok (types.Username fc, types.Password fc).
Proof.
  unfold entryOf. destruct (String.eqb (Auth conf) "") eqn:Hempty; [discriminate |].
  apply eqb_nonempty in Hempty.
  destruct (decodeUserpass (Auth conf)) as [[user pass] | e]; [| discriminate].
  intros [= <-]. now repeat split.
Qed.

(** C9: the record of a file-based block is the block's normalized address
    with the user name and the password of the matching file entry and
    nothing else; the entry's own [Auth] is never empty and its
    [ServerAddress] is its key, and neither they nor its [Email] are
    copied. *)
Theorem file_block_copies_only_credentials (i : nat) (auth : authBlock)
    (ac : types.AuthConfig) :
  nonEmpty (username auth) = false ->
  nonEmpty (config_file auth) = true ->
  outcome (resolveBlock N W i auth) = Ok ac ->
  types.Email ac = "" /\ types.Auth ac = "" /\
  types.ServerAddress ac = N (address auth) /\
  exists path content auths reg fc,
    outcome (expandHome W (default "" (config_file auth))) = Ok path /\
    os_Open W path = inl content /\
    newAuthConfigurations W i content = Ok auths /\
    Configs auths !! reg = Some fc /\
    N reg = N (address auth) /\
    types.Auth fc <> "" /\ types.ServerAddress fc = reg /\
    ac = credential (N (address auth)) (types.Username fc) (types.Password fc).
Proof.
  intros Hu Hfile Hok.
  destruct (nonEmpty_true _ Hfile) as (f & Hf & Hne).
  rewrite (resolveBlock_file _ _ _ Hu Hf Hne), fromConfigFile_run in Hok.
  rewrite Hf. change (default "" (Some f)) with f.
  destruct (expandHome W f) as [t [path | e]]; [| discriminate].
  destruct (os_Open W path) as [content | msg] eqn:Hopen; [| discriminate].
  destruct (newAuthConfigurations W i content) as [auths | e] eqn:Hparse; [| discriminate].
  change (types.ServerAddress (credential (N (address auth)) "" ""))
    with (N (address auth)) in Hok.
  destruct (last (hits N W i (N (address auth)) auths)) as [[reg fc] |] eqn:Hl;
    [| discriminate].
  injection Hok as <-.
  apply last_Some_elem_of, hits_elem in Hl as [Hreg Hmatch].
  destruct (newAuthConfigurations_ok _ _ _ Hparse) as (confs & _ & Hauths).
  pose proof (authConfigs_lookup W Hsound _ _ _ Hauths reg) as Hlookup.
  rewrite Hreg in Hlookup.
  destruct (confs !! reg) as [conf |]; [| discriminate].
  cbn [mbind option_bind] in Hlookup. symmetry in Hlookup.
  apply entryOf_Some in Hlookup as (Hnonempty & Hauth & _ & Haddr & _).
  repeat split.
  exists path, content, auths, reg, fc.
  repeat split; try assumption; try reflexivity.
  now rewrite Hauth.
Qed.

(** C10, as the code has it: when some entry of the file cannot be decoded,
    a file-based block fails after the file is opened, whatever address it
    asks for and whatever else the file holds: the error is a new parse error
    whose message carries the decode error of an entry of the file that
    cannot be decoded, which is that entry when it is the only one. *)
Theorem undecodable_entry_fails_every_lookup (i : nat) (auth : authBlock)
    (f path content : string) (t : list call)
    (confs : gmap string dockerConfig) (reg : string) (conf : dockerConfig) (e : error) :
  nonEmpty (username auth) = false -> config_file auth = Some f -> f <> "" ->
  expandHome W f = (t, Ok path) ->
  os_Open W path = inl content ->
  parseDockerConfig W content = Ok confs ->
  confs !! reg = Some conf -> undecodable conf e ->
  exists reg' conf' e',
    confs !! reg' = Some conf' /\ undecodable conf' e' /\
    (e' = ErrCannotParseDockercfg \/ exists offset, e' = CorruptInputError offset) /\
    resolveBlock N W i auth
    = (t ++ [CallOpen path],
       Err (Errorf ("Error parsing docker registry config json: " +:+ Error e'))) /\
    ((forall reg'' conf'' e'',
         confs !! reg'' = Some conf'' -> undecodable conf'' e'' -> reg'' = reg) ->
     e' = e).
Proof.
  intros Hu Hf Hne Hpath Hopen Hparse Hreg Hbad.
  rewrite (resolveBlock_file _ _ _ Hu Hf Hne), fromConfigFile_run, Hpath, Hopen.
  unfold newAuthConfigurations. rewrite Hparse.
  destruct (authConfigs W i confs) as [c | e'] eqn:Hrun.
  - exfalso. apply (authConfigsLoop_ok _ _ _ Hrun reg conf e); [| exact Hbad].
    now apply (range_confs_elem W Hsound).
  - destruct (authConfigs_err W Hsound _ _ _ Hrun) as (reg' & conf' & Hreg' & Hbad').
    exists reg', conf', e'.
    split; [exact Hreg' |]. split; [exact Hbad' |].
    split; [apply (decodeUserpass_err (Auth conf')), Hbad' |].
    split; [reflexivity |].
    intros Honly. assert (reg' = reg) as Heq by now apply (Honly reg' conf' e').
    subst reg'. destruct Hbad as [_ Hbad], Hbad' as [_ Hbad']. congruence.
Qed.

(** The record of a block carries the normalized address of the block. *)
Lemma resolveBlock_address (i : nat) (auth : authBlock) (ac : types.AuthConfig) :
  outcome (resolveBlock N W i auth) = Ok ac ->
  types.ServerAddress ac = N (address auth).
Proof.
  unfold resolveBlock.
  destruct (nonEmpty (username auth)); [now intros [= <-] |].
  destruct (nonEmpty (config_file auth)); [| now intros [= <-]].
  rewrite fromConfigFile_run.
  destruct (expandHome W _) as [t [path | e]]; [| discriminate].
  destruct (os_Open W path) as [content | msg]; [| discriminate].
  destruct (newAuthConfigurations W i content) as [auths | e]; [| discriminate].
  destruct (last _) as [[reg fc] |]; [| discriminate].
  now intros [= <-].
Qed.

(** The errors of a block: the home directory, the open, the parse and the
    lookup, in the order they can occur. *)
Lemma resolveBlock_errors (i : nat) (auth : authBlock) (e : error) :
  outcome (resolveBlock N W i auth) = Err e ->
  (exists msg, user_Current W = inr msg /\ e = OSError msg) \/
  (exists path msg,
      os_Open W path = inr msg /\
      e = Errorf ("Error opening docker registry config file: " +:+ msg)) \/
  (exists path content e',
      os_Open W path = inl content /\
      newAuthConfigurations W i content = Err e' /\
      e = Errorf ("Error parsing docker registry config json: " +:+ Error e')) \/
  (exists path, e = Errorf (notFoundMessage (N (address auth)) path)).
Proof.
  unfold resolveBlock.
  destruct (nonEmpty (username auth)); [discriminate |].
  destruct (nonEmpty (config_file auth)); [| discriminate].
  rewrite fromConfigFile_run. unfold expandHome, io_bind, userCurrent.
  destruct (strings.HasPrefix _ "~/"); cbn [fst snd io_pure].
  - destruct (user_Current W) as [homeDir | msg] eqn:Hhome; cbn [fst snd].
    + destruct (os_Open W _) as [content | msg] eqn:Hopen;
        [| intros [= <-]; right; left; eauto].
      destruct (newAuthConfigurations W i content) as [auths | e'] eqn:Hparse;
        [| intros [= <-]; right; right; left; eauto 6].
      destruct (last _) as [[reg fc] |]; [discriminate |].
      intros [= <-]. right; right; right. eauto.
    + intros [= <-]. left. eauto.
  - destruct (os_Open W _) as [content | msg] eqn:Hopen;
      [| intros [= <-]; right; left; eauto].
    destruct (newAuthConfigurations W i content) as [auths | e'] eqn:Hparse;
      [| intros [= <-]; right; right; left; eauto 6].
    destruct (last _) as [[reg fc] |]; [discriminate |].
    intros [= <-]. right; right; right. eauto.
Qed.

(** C2: the mode of a block is decided by what is populated, the user name
    first.  A non-empty user name gives the record made of the normalized
    address, that user name and the block's password, with no system call,
    whatever the config file and the password are.  Otherwise a non-empty
    config file is consulted: the path is expanded, the file at that path is
    opened, and what is returned is decided by the file, an error when it
    cannot be opened or parsed, the user name and password of an entry of the
    parsed file whose normalized key is the block's normalized address, and
    the not-found error when the file has no such entry.  Otherwise the
    record has the normalized address and nothing else, again with no system
    call.  Whatever the mode, the record is stored under the normalized
    address. *)
Theorem resolution_mode_precedence (i : nat) (auth : authBlock) :
  (forall u,
      username auth = Some u -> u <> "" ->
      resolveBlock N W i auth
      = ([], Ok (credential (N (address auth)) u (password auth)))) /\
  (forall f,
      nonEmpty (username auth) = false -> config_file auth = Some f -> f <> "" ->
      (forall t path,
          expandHome W f = (t, Ok path) ->
          trace (resolveBlock N W i auth) = t ++ [CallOpen path] /\
          (forall msg,
              os_Open W path = inr msg ->
              outcome (resolveBlock N W i auth)
              = Err (Errorf ("Error opening docker registry config file: " +:+ msg))) /\
          (forall content e,
              os_Open W path = inl content ->
              newAuthConfigurations W i content = Err e ->
              outcome (resolveBlock N W i auth)
              = Err (Errorf ("Error parsing docker registry config json: " +:+ Error e))) /\
          (forall content auths,
              os_Open W path = inl content ->
              newAuthConfigurations W i content = Ok auths ->
              outcome (resolveBlock N W i auth)
              = match last (hits N W i (N (address auth)) auths) with
                | Some (_, fc) =>
                    Ok (credential (N (address auth))
                          (types.Username fc) (types.Password fc))
                | None => Err (Errorf (notFoundMessage (N (address auth)) path))
                end /\
              (forall reg fc,
                  last (hits N W i (N (address auth)) auths) = Some (reg, fc) ->
                  Configs auths !! reg = Some fc /\ N reg = N (address auth)) /\
              (last (hits N W i (N (address auth)) auths) = None <->
               forall reg fc,
                 Configs auths !! reg = Some fc -> N reg <> N (address auth)))) /\
      (forall t e,
          expandHome W f = (t, Err e) ->
          resolveBlock N W i auth = (t, Err e))) /\
  (nonEmpty (username auth) = false -> nonEmpty (config_file auth) = false ->
   resolveBlock N W i auth = ([], Ok (credential (N (address auth)) "" ""))) /\
  (forall t ac configs,
      resolveBlock N W i auth = (t, Ok ac) ->
      resolveFrom N W i [auth] configs
      = (t, Ok {| Configs := <[N (address auth) := ac]> configs |})).
Proof.
  split; [| split; [| split]].
  - intros u Hu Hne. unfold resolveBlock.
    now rewrite Hu, (nonEmpty_Some _ Hne).
  - intros f Hu Hf Hne.
    rewrite (resolveBlock_file _ _ _ Hu Hf Hne), fromConfigFile_run.
    change (types.ServerAddress (credential (N (address auth)) "" ""))
      with (N (address auth)).
    split; [| now intros t e ->].
    intros t path ->. split; [| split; [| split]].
    + destruct (os_Open W path) as [content | msg]; [| reflexivity].
      destruct (newAuthConfigurations W i content) as [auths | e]; [| reflexivity].
      now destruct (last _) as [[reg fc] |].
    + now intros msg ->.
    + now intros content e -> ->.
    + intros content auths -> ->. split; [| split].
      * now destruct (last _) as [[reg fc] |].
      * intros reg fc Hl. apply (proj1 (hits_elem i (N (address auth)) auths reg fc)).
        now apply last_Some_elem_of.
      * apply hits_none.
  - intros Hu Hf. unfold resolveBlock. now rewrite Hu, Hf.
  - intros t ac configs Hrun.
    pose proof (resolveBlock_address i auth ac) as Haddr.
    rewrite Hrun in Haddr. specialize (Haddr eq_refl).
    cbn [resolveFrom]. unfold io_bind. rewrite Hrun. cbn [fst snd io_pure].
    now rewrite app_nil_r, Haddr.
Qed.

End BlockFacts.

(** ** The whole pass *)

Section PassFacts.
(** [N] is [normalizeRegistryAddress]. *)
Variable N : string -> string.
Variable W : World.

Lemma resolveFrom_cons (i : nat) (auth : authBlock) (blocks : list authBlock)
    (configs : gmap string types.AuthConfig) :
  resolveFrom N W i (auth :: blocks) configs =
    match resolveBlock N W i auth with
    | (t, Ok ac) =>
        (t ++ trace (resolveFrom N W (S i) blocks (<[N (address auth) := ac]> configs)),
         outcome (resolveFrom N W (S i) blocks (<[N (address auth) := ac]> configs)))
    | (t, Err e) => (t, Err e)
    end.
Proof.
  cbn [resolveFrom]. unfold io_bind.
  destruct (resolveBlock N W i auth) as [t [ac | e]] eqn:Hrun; [| reflexivity].
  pose proof (resolveBlock_address N W i auth ac) as Haddr.
  rewrite Hrun in Haddr. now rewrite (Haddr eq_refl).
Qed.

(** Either every block resolves, or the pass stops at the first block that
    does not. *)
Lemma resolveFrom_cases (blocks : list authBlock) :
  forall i configs,
    (exists cfgs,
        outcome (resolveFrom N W i blocks configs) = Ok cfgs /\
        trace (resolveFrom N W i blocks configs) = tracesFrom N W i blocks /\
        forall k auth, blocks !! k = Some auth ->
          exists ac, outcome (resolveBlock N W (i + k) auth) = Ok ac) \/
    (exists k auth e,
        blocks !! k = Some auth /\
        (forall j b, (j < k)%nat -> blocks !! j = Some b ->
           exists ac, outcome (resolveBlock N W (i + j) b) = Ok ac) /\
        outcome (resolveBlock N W (i + k) auth) = Err e /\
        outcome (resolveFrom N W i blocks configs) = Err e /\
        trace (resolveFrom N W i blocks configs) = tracesFrom N W i (take (S k) blocks) /\
        forall rest,
          resolveFrom N W i (take (S k) blocks ++ rest) configs
          = resolveFrom N W i blocks configs).
Proof.
  induction blocks as [| auth blocks IH]; intros i configs.
  - left. exists {| Configs := configs |}. repeat split. intros k auth Hk. discriminate.
  - destruct (resolveBlock N W i auth) as [t [ac | e]] eqn:Hrun.
    + destruct (IH (S i) (<[N (address auth) := ac]> configs))
        as [(cfgs & Hout & Htrace & Hall) | (k & b & e & Hk & Hbefore & Hfail & Hout & Htrace & Hrest)].
      * left. exists cfgs. rewrite resolveFrom_cons, Hrun. cbn [outcome trace fst snd].
        split; [exact Hout |]. split.
        { cbn [tracesFrom]. now rewrite Hrun, <- Htrace. }
        intros [| k] b Hk.
        -- injection Hk as <-. exists ac. rewrite Nat.add_0_r, Hrun. reflexivity.
        -- rewrite Nat.add_succ_r. now apply (Hall k b).
      * right. exists (S k), b, e. rewrite resolveFrom_cons, Hrun.
        cbn [outcome trace fst snd].
        split; [exact Hk |]. split.
        { intros [| j] b' Hj Hb'.
          - injection Hb' as <-. exists ac. rewrite Nat.add_0_r, Hrun. reflexivity.
          - rewrite Nat.add_succ_r. apply (Hbefore j b'); [lia | exact Hb']. }
        split; [now rewrite Nat.add_succ_r |].
        split; [exact Hout |]. split.
        { change (take (S (S k)) (auth :: blocks)) with (auth :: take (S k) blocks).
          cbn [tracesFrom]. now rewrite Hrun, <- Htrace. }
        intros rest.
        change (take (S (S k)) (auth :: blocks) ++ rest)
          with (auth :: (take (S k) blocks ++ rest)).
        now rewrite resolveFrom_cons, Hrun, Hrest.
    + right. exists 0%nat, auth, e. rewrite resolveFrom_cons, Hrun.
      cbn [outcome trace fst snd]. rewrite Nat.add_0_r, Hrun.
      split; [reflexivity |]. split; [intros j b Hj; lia |].
      split; [reflexivity |]. split; [reflexivity |]. split.
      { cbn [take tracesFrom]. now rewrite Hrun, app_nil_r. }
      intros rest. cbn [take app]. now rewrite resolveFrom_cons, Hrun.
Qed.

(** What the pass leaves under a key that no block has. *)
Lemma resolveFrom_frame (blocks : list authBlock) :
  forall i configs cfgs key,
    outcome (resolveFrom N W i blocks configs) = Ok cfgs ->
    (forall b, b ∈ blocks -> N (address b) <> key) ->
    Configs cfgs !! key = configs !! key.
Proof.
  induction blocks as [| auth blocks IH]; intros i configs cfgs key Hout Hother.
  - now injection Hout as <-.
  - rewrite resolveFrom_cons in Hout.
    destruct (resolveBlock N W i auth) as [t [ac | e]]; [| discriminate].
    cbn [outcome snd] in Hout.
    rewrite (IH _ _ _ key Hout).
    + apply lookup_insert_ne, Hother, elem_of_cons. now left.
    + intros b Hb. apply Hother, elem_of_cons. now right.
Qed.

(** The keys of the result are those it started with and the normalized
    addresses of the blocks. *)
Lemma resolveFrom_keys (blocks : list authBlock) :
  forall i configs cfgs key,
    outcome (resolveFrom N W i blocks configs) = Ok cfgs ->
    is_Some (Configs cfgs !! key) <->
    is_Some (configs !! key) \/ exists b, b ∈ blocks /\ key = N (address b).
Proof.
  induction blocks as [| auth blocks IH]; intros i configs cfgs key Hout.
  - injection Hout as <-. cbn [Configs]. split; [now left |].
    intros [Hsome | (b & Hb & _)]; [exact Hsome | now apply elem_of_nil in Hb].
  - rewrite resolveFrom_cons in Hout.
    destruct (resolveBlock N W i auth) as [t [ac | e]]; [| discriminate].
    cbn [outcome snd] in Hout. rewrite (IH _ _ _ key Hout), lookup_insert_is_Some.
    split.
    + intros [[<- | [_ Hsome]] | (b & Hb & ->)].
      * right. exists auth. split; [apply elem_of_cons; now left | reflexivity].
      * now left.
      * right. exists b. split; [apply elem_of_cons; now right | reflexivity].
    + intros [Hsome | (b & Hb & ->)].
      * destruct (decide (N (address auth) = key)); left; [now left | now right].
      * apply elem_of_cons in Hb as [-> | Hb]; [left; now left |].
        right. now exists b.
Qed.

Lemma resolveFrom_app (pre post : list authBlock) :
  forall i configs cfgs,
    outcome (resolveFrom N W i (pre ++ post) configs) = Ok cfgs ->
    exists mid,
      outcome (resolveFrom N W i pre configs) = Ok mid /\
      outcome (resolveFrom N W (i + length pre) post (Configs mid)) = Ok cfgs.
Proof.
  induction pre as [| auth pre IH]; intros i configs cfgs Hout.
  - exists {| Configs := configs |}. split; [reflexivity |].
    cbn [length]. now rewrite Nat.add_0_r.
  - change ((auth :: pre) ++ post) with (auth :: (pre ++ post)) in Hout.
    rewrite resolveFrom_cons in *.
    destruct (resolveBlock N W i auth) as [t [ac | e]]; [| discriminate].
    cbn [outcome snd] in *. cbn [length]. rewrite Nat.add_succ_r.
    now apply IH.
Qed.

(** Where a record of the result comes from. *)
Lemma resolveFrom_lookup_Some (blocks : list authBlock) :
  forall i configs cfgs key ac,
    outcome (resolveFrom N W i blocks configs) = Ok cfgs ->
    Configs cfgs !! key = Some ac ->
    configs !! key = Some ac \/
    exists k b, blocks !! k = Some b /\ N (address b) = key /\
                outcome (resolveBlock N W (i + k) b) = Ok ac.
Proof.
  induction blocks as [| b blocks IH]; intros i configs cfgs key ac Hout Hkey.
  - injection Hout as <-. now left.
  - rewrite resolveFrom_cons in Hout.
    destruct (resolveBlock N W i b) as [t [ac0 | e]] eqn:Hrun; [| discriminate].
    cbn [outcome snd] in Hout.
    destruct (IH _ _ _ _ _ Hout Hkey) as [Hhere | (k & b' & Hk & Haddr & Hres)].
    + apply lookup_insert_Some in Hhere as [[<- <-] | [_ Hold]]; [| now left].
      right. exists 0%nat, b. rewrite Nat.add_0_r, Hrun. now repeat split.
    + right. exists (S k), b'. rewrite Nat.add_succ_r. now repeat split.
Qed.

(** The record of a block that no later block overwrites. *)
Lemma resolveFrom_last (blocks : list authBlock) :
  forall i configs cfgs k auth,
    outcome (resolveFrom N W i blocks configs) = Ok cfgs ->
    blocks !! k = Some auth ->
    (forall j b, (k < j)%nat -> blocks !! j = Some b ->
       N (address b) <> N (address auth)) ->
    exists ac,
      outcome (resolveBlock N W (i + k) auth) = Ok ac /\
      Configs cfgs !! N (address auth) = Some ac.
Proof.
  induction blocks as [| b0 blocks IH]; intros i configs cfgs k auth Hout Hk Hlater;
    [discriminate |].
  rewrite resolveFrom_cons in Hout.
  destruct (resolveBlock N W i b0) as [t [ac0 | e]] eqn:Hrun; [| discriminate].
  cbn [outcome snd] in Hout. destruct k as [| k].
  - injection Hk as ->. exists ac0. rewrite Nat.add_0_r, Hrun.
    split; [reflexivity |].
    rewrite (resolveFrom_frame _ _ _ _ _ Hout).
    + apply lookup_insert_eq.
    + intros b Hb. apply list_elem_of_lookup in Hb as [j Hj].
      apply (Hlater (S j) b); [lia | exact Hj].
  - rewrite Nat.add_succ_r. apply (IH _ _ _ _ _ Hout Hk).
    intros j b Hj Hb. apply (Hlater (S j) b); [lia | exact Hb].
Qed.

(** C5: the pass over a list of blocks either returns a set, and then every
    block resolved, the set holds under each normalized address the record
    resolved for the last block with that address, every record of the set is
    the record resolved for a block, the set has no other key and the system
    calls are those of all the blocks; or it returns the error of the first
    block that fails and no set, every block before it resolved, no system
    call is made for a block after it and the blocks after it have no
    influence on what is returned. *)
Theorem all_or_nothing (blocks : list authBlock) :
  (exists cfgs,
      outcome (providerSetToRegistryAuth N W blocks) = Ok cfgs /\
      (forall k auth, blocks !! k = Some auth ->
         exists ac,
           outcome (resolveBlock N W k auth) = Ok ac /\
           is_Some (Configs cfgs !! N (address auth)) /\
           ((forall j b, (k < j)%nat -> blocks !! j = Some b ->
               N (address b) <> N (address auth)) ->
            Configs cfgs !! N (address auth) = Some ac)) /\
      (forall key ac, Configs cfgs !! key = Some ac ->
         exists k auth,
           blocks !! k = Some auth /\ N (address auth) = key /\
           outcome (resolveBlock N W k auth) = Ok ac) /\
      (forall key, is_Some (Configs cfgs !! key) ->
         exists auth, auth ∈ blocks /\ key = N (address auth)) /\
      trace (providerSetToRegistryAuth N W blocks) = tracesFrom N W 0 blocks) \/
  (exists k auth e,
      blocks !! k = Some auth /\
      (forall j b, (j < k)%nat -> blocks !! j = Some b ->
         exists ac, outcome (resolveBlock N W j b) = Ok ac) /\
      outcome (resolveBlock N W k auth) = Err e /\
      outcome (providerSetToRegistryAuth N W blocks) = Err e /\
      trace (providerSetToRegistryAuth N W blocks)
      = tracesFrom N W 0 (take (S k) blocks) /\
      forall rest,
        providerSetToRegistryAuth N W (take (S k) blocks ++ rest)
        = providerSetToRegistryAuth N W blocks).
Proof.
  unfold providerSetToRegistryAuth.
  destruct (resolveFrom_cases blocks 0 ∅)
    as [(cfgs & Hout & Htrace & Hall) | Hfail]; [left | right; exact Hfail].
  exists cfgs. split; [exact Hout |]. split; [| split; [| split; [| exact Htrace]]].
  - intros k auth Hk. destruct (Hall k auth Hk) as [ac Hac]. exists ac.
    split; [exact Hac |]. split.
    + apply (resolveFrom_keys _ _ _ _ _ Hout). right. exists auth.
      split; [| reflexivity]. apply list_elem_of_lookup. now exists k.
    + intros Hlater.
      destruct (resolveFrom_last _ _ _ _ _ _ Hout Hk Hlater) as (ac' & Hac' & Hlookup).
      congruence.
  - intros key ac Hkey.
    destruct (resolveFrom_lookup_Some _ _ _ _ _ _ Hout Hkey)
      as [Hempty | (k & b & Hk & Haddr & Hres)].
    + rewrite lookup_empty in Hempty. discriminate.
    + now exists k, b.
  - intros key Hkey. apply (resolveFrom_keys _ _ _ _ _ Hout) in Hkey
      as [Hempty | Hblock]; [| exact Hblock].
    rewrite lookup_empty in Hempty. now destruct Hempty.
Qed.

(** C6: the record the final set holds for a normalized address is the
    record resolved for the last block with that normalized address, whole;
    nothing of the blocks before it, with the same address or not, is in
    it. *)
Theorem later_block_overwrites (pre post : list authBlock) (b : authBlock)
    (cfgs : AuthConfigs) :
  outcome (providerSetToRegistryAuth N W (pre ++ b :: post)) = Ok cfgs ->
  (forall b', b' ∈ post -> N (address b') <> N (address b)) ->
  exists ac,
    outcome (resolveBlock N W (length pre) b) = Ok ac /\
    Configs cfgs !! N (address b) = Some ac.
Proof.
  unfold providerSetToRegistryAuth. intros Hout Hlast.
  apply resolveFrom_app in Hout as (mid & _ & Hout).
  rewrite resolveFrom_cons in Hout. cbn [Nat.add] in Hout.
  destruct (resolveBlock N W (length pre) b) as [t [ac | e]]; [| discriminate].
  cbn [outcome snd] in Hout. exists ac. split; [reflexivity |].
  rewrite (resolveFrom_frame _ _ _ _ _ Hout Hlast).
  apply lookup_insert_eq.
Qed.

End PassFacts.

(** ** The resolver at work *)

Section Runs.
Import Demo.

Lemma non_empty_path (c : ascii) (s : string) : String c s <> "".
Proof. discriminate. Qed.

Lemma file_lookup_takes_last_match_witness :
  outcome (resolveBlock normalize world 0 twinBlock)
  = Ok (credential "reg.example.com" "u1" "p1") /\
  outcome (resolveBlock normalize world 0 strangerBlock)
  = Err (Errorf "Couldn't find registry config for 'nope.example.com' in file: /etc/docker/flat.json").
Proof.
  split.
  - assert (Hparse : newAuthConfigurations world 0 twinJSON = Ok twinParsed)
      by (vm_compute; reflexivity).
    destruct (file_lookup_takes_last_match normalize world demo_world_sound 0 twinBlock
                "/etc/docker/twin.json" "/etc/docker/twin.json" twinJSON [] twinParsed
                eq_refl eq_refl (non_empty_path _ _) eq_refl eq_refl Hparse)
      as (_ & Hlast & _).
    apply (Hlast "reg.example.com" userOne). vm_compute. reflexivity.
  - assert (Hparse : newAuthConfigurations world 0 flatJSON
                     = Ok {| Configs := {[ "registry.example.com" :=
                          {| types.Username := "user"; types.Password := "pass";
                             types.Auth := "dXNlcjpwYXNz"; types.Email := "";
                             types.ServerAddress := "registry.example.com";
                             types.IdentityToken := ""; types.RegistryToken := "" |} ]} |})
      by (vm_compute; reflexivity).
    destruct (file_lookup_takes_last_match normalize world demo_world_sound 0 strangerBlock
                "/etc/docker/flat.json" "/etc/docker/flat.json" flatJSON [] _
                eq_refl eq_refl (non_empty_path _ _) eq_refl eq_refl Hparse)
      as (Hnone & _).
    apply Hnone. intros reg fc Hreg. cbn [Configs] in Hreg.
    apply lookup_singleton_Some in Hreg as [<- _]. discriminate.
Defined.

(** C1 as stated fails on a file with the keys [reg.example.com/] and
    [reg.example.com]: the scan visits [reg.example.com/] first, and the
    credentials returned are those of [reg.example.com], visited after it. *)
Lemma first_match_not_selected :
  newAuthConfigurations world 0 twinJSON = Ok twinParsed /\
  head (hits normalize world 0 (normalize (address twinBlock)) twinParsed)
  = Some ("reg.example.com/", userTwo) /\
  outcome (resolveBlock normalize world 0 twinBlock)
  = Ok (credential "reg.example.com" "u1" "p1") /\
  outcome (resolveBlock normalize world 0 twinBlock)
  <> Ok (credential "reg.example.com" (types.Username userTwo) (types.Password userTwo)).
Proof.
  split; [vm_compute; reflexivity |].
  split; [vm_compute; reflexivity |].
  split; [vm_compute; reflexivity |].
  vm_compute. discriminate.
Qed.

Lemma file_block_copies_only_credentials_witness :
  exists ac,
    outcome (resolveBlock normalize world 0 homeBlock) = Ok ac /\
    types.Email ac = "" /\ types.Auth ac = "" /\
    types.ServerAddress ac = "registry.example.com".
Proof.
  exists (credential "registry.example.com" "user" "pass").
  assert (Hrun : outcome (resolveBlock normalize world 0 homeBlock)
                 = Ok (credential "registry.example.com" "user" "pass"))
    by (vm_compute; reflexivity).
  split; [exact Hrun |].
  destruct (file_block_copies_only_credentials normalize world demo_world_sound 0
              homeBlock _ eq_refl eq_refl Hrun) as (Hemail & Hauth & Haddr & _).
  split; [exact Hemail |]. split; [exact Hauth | exact Haddr].
Defined.

Lemma undecodable_entry_fails_every_lookup_witness :
  brokenAuths !! "registry.example.com"
  = Some {| Auth := "dXNlcjpwYXNz"; Email := "" |} /\
  resolveBlock normalize world 0 brokenBlock
  = ([CallOpen "/etc/docker/broken.json"],
     Err (Errorf "Error parsing docker registry config json: Failed to read authentication from dockercfg")).
Proof.
  split; [vm_compute; reflexivity |].
  assert (Hparse : parseDockerConfig world brokenJSON = Ok brokenAuths)
    by (vm_compute; reflexivity).
  assert (Hbad : undecodable {| Auth := "bm9jb2xvbg=="; Email := "" |}
                   ErrCannotParseDockercfg)
    by (split; [discriminate | vm_compute; reflexivity]).
  destruct (undecodable_entry_fails_every_lookup normalize world demo_world_sound 0
              brokenBlock "/etc/docker/broken.json" "/etc/docker/broken.json" brokenJSON []
              brokenAuths "bad.example.com" _ ErrCannotParseDockercfg
              eq_refl eq_refl (non_empty_path _ _) eq_refl eq_refl Hparse eq_refl Hbad)
    as (reg' & conf' & e' & _ & _ & _ & Hrun & Honly).
  assert (He' : e' = ErrCannotParseDockercfg).
  { apply Honly. intros reg'' conf'' e'' Hreg'' [Hne Hdec].
    apply elem_of_map_to_list in Hreg''.
    let l := eval vm_compute in (map_to_list brokenAuths) in
    change (map_to_list brokenAuths) with l in Hreg''.
    repeat (apply elem_of_cons in Hreg'' as [[= -> ->] | Hreg''];
            [first [reflexivity | vm_compute in Hdec; discriminate] |]).
    now apply elem_of_nil in Hreg''. }
  rewrite Hrun, He'. reflexivity.
Defined.

Lemma resolution_mode_precedence_witness :
  resolveBlock normalize world 0 inlineBlock
  = ([], Ok (credential "reg.example.com" "u" "")) /\
  trace (resolveBlock normalize world 0 homeBlock)
  = [CallUserCurrent; CallOpen "/home/dev/.docker/config.json"] /\
  outcome (resolveBlock normalize world 0 homeBlock)
  = Ok (credential "registry.example.com" "user" "pass") /\
  outcome (resolveBlock normalize world 0 strangerBlock)
  = Err (Errorf "Couldn't find registry config for 'nope.example.com' in file: /etc/docker/flat.json") /\
  outcome (resolveBlock normalize world 0 missingBlock)
  = Err (Errorf "Error opening docker registry config file: open /etc/docker/none.json: no such file or directory") /\
  outcome (resolveBlock normalize world 0 brokenBlock)
  = Err (Errorf "Error parsing docker registry config json: Failed to read authentication from dockercfg") /\
  resolveBlock normalize world 0 bareBlock
  = ([], Ok (credential "reg.example.com" "" "")) /\
  resolveFrom normalize world 0 [bareBlock] ∅
  = ([], Ok {| Configs := {[ "reg.example.com" := credential "reg.example.com" "" "" ]} |}).
Proof.
  destruct (resolution_mode_precedence normalize world demo_world_sound 0 inlineBlock)
    as (Hinline & _).
  destruct (resolution_mode_precedence normalize world demo_world_sound 0 homeBlock)
    as (_ & Hhome & _).
  destruct (resolution_mode_precedence normalize world demo_world_sound 0 strangerBlock)
    as (_ & Hstranger & _).
  destruct (resolution_mode_precedence normalize world demo_world_sound 0 missingBlock)
    as (_ & Hmissing & _).
  destruct (resolution_mode_precedence normalize world demo_world_sound 0 brokenBlock)
    as (_ & Hbroken & _).
  destruct (resolution_mode_precedence normalize world demo_world_sound 0 bareBlock)
    as (_ & _ & Hbare & Hinsert).
  split; [apply (Hinline "u" eq_refl); discriminate |].
  destruct (Hhome "~/.docker/config.json" eq_refl eq_refl (non_empty_path _ _))
    as (Hhome' & _).
  destruct (Hhome' [CallUserCurrent] "/home/dev/.docker/config.json" eq_refl)
    as (Htrace & _ & _ & Hfound).
  split; [exact Htrace |].
  split.
  { destruct (Hfound wrappedJSON
                {| Configs := {[ "registry.example.com" :=
                     {| types.Username := "user"; types.Password := "pass";
                        types.Auth := "dXNlcjpwYXNz"; types.Email := "u@example.com";
                        types.ServerAddress := "registry.example.com";
                        types.IdentityToken := ""; types.RegistryToken := "" |} ]} |})
      as (Hout & _); [reflexivity | vm_compute; reflexivity |].
    rewrite Hout. vm_compute. reflexivity. }
  split.
  { destruct (Hstranger "/etc/docker/flat.json" eq_refl eq_refl (non_empty_path _ _))
      as (Hstranger' & _).
    destruct (Hstranger' [] "/etc/docker/flat.json" eq_refl) as (_ & _ & _ & Hlookup).
    destruct (Hlookup flatJSON
                {| Configs := {[ "registry.example.com" :=
                     {| types.Username := "user"; types.Password := "pass";
                        types.Auth := "dXNlcjpwYXNz"; types.Email := "";
                        types.ServerAddress := "registry.example.com";
                        types.IdentityToken := ""; types.RegistryToken := "" |} ]} |})
      as (Hout & _); [reflexivity | vm_compute; reflexivity |].
    rewrite Hout. vm_compute. reflexivity. }
  split.
  { destruct (Hmissing "/etc/docker/none.json" eq_refl eq_refl (non_empty_path _ _))
      as (Hmissing' & _).
    destruct (Hmissing' [] "/etc/docker/none.json" eq_refl) as (_ & Hopen & _).
    apply (Hopen "open /etc/docker/none.json: no such file or directory"). reflexivity. }
  split.
  { destruct (Hbroken "/etc/docker/broken.json" eq_refl eq_refl (non_empty_path _ _))
      as (Hbroken' & _).
    destruct (Hbroken' [] "/etc/docker/broken.json" eq_refl) as (_ & _ & Hparse & _).
    apply (Hparse brokenJSON ErrCannotParseDockercfg); [reflexivity |].
    vm_compute. reflexivity. }
  split; [apply Hbare; reflexivity |].
  apply (Hinsert [] (credential "reg.example.com" "" "") ∅).
  apply Hbare; reflexivity.
Defined.

Lemma all_or_nothing_witness :
  (exists cfgs,
      outcome (providerSetToRegistryAuth normalize world [inlineBlock; bareBlock; homeBlock])
      = Ok cfgs /\
      Configs cfgs !! "reg.example.com" = Some (credential "reg.example.com" "" "") /\
      Configs cfgs !! "registry.example.com"
      = Some (credential "registry.example.com" "user" "pass")) /\
  exists e,
    outcome (providerSetToRegistryAuth normalize world [inlineBlock; missingBlock; homeBlock])
    = Err e /\
    outcome (resolveBlock normalize world 1 missingBlock) = Err e /\
    trace (providerSetToRegistryAuth normalize world [inlineBlock; missingBlock; homeBlock])
    = tracesFrom normalize world 0 [inlineBlock; missingBlock] /\
    forall rest,
      providerSetToRegistryAuth normalize world ([inlineBlock; missingBlock] ++ rest)
      = providerSetToRegistryAuth normalize world [inlineBlock; missingBlock; homeBlock].
Proof.
  split.
  - destruct (all_or_nothing normalize world [inlineBlock; bareBlock; homeBlock])
      as [(cfgs & Hout & Hall & _) | (k & auth & e & _ & _ & _ & Hout & _)].
    + exists cfgs. split; [exact Hout |]. split.
      * destruct (Hall 1%nat bareBlock eq_refl) as (ac & Hac & _ & Hlast).
        vm_compute in Hac. injection Hac as <-. apply Hlast.
        intros j b Hj Hb. destruct j as [| [| [| j]]]; try lia; [| discriminate].
        injection Hb as <-. discriminate.
      * destruct (Hall 2%nat homeBlock eq_refl) as (ac & Hac & _ & Hlast).
        vm_compute in Hac. injection Hac as <-. apply Hlast.
        intros j b Hj Hb. destruct j as [| [| [| j]]]; try lia. discriminate.
    + vm_compute in Hout. discriminate.
  - destruct (all_or_nothing normalize world [inlineBlock; missingBlock; homeBlock])
      as [(cfgs & Hout & _) | (k & auth & e & Hk & Hbefore & Hfail & Hout & Htrace & Hrest)].
    + vm_compute in Hout. discriminate.
    + destruct k as [| [| [| k]]].
      * injection Hk as <-. vm_compute in Hfail. discriminate.
      * injection Hk as <-. exists e. repeat split; assumption.
      * destruct (Hbefore 1%nat missingBlock) as [ac Hac]; [lia | reflexivity |].
        vm_compute in Hac. discriminate.
      * discriminate.
Defined.

Lemma later_block_overwrites_witness :
  exists cfgs,
    outcome (providerSetToRegistryAuth normalize world [inlineBlock; bareBlock; homeBlock])
    = Ok cfgs /\
    outcome (resolveBlock normalize world 0 inlineBlock)
    = Ok (credential "reg.example.com" "u" "") /\
    Configs cfgs !! "reg.example.com" = Some (credential "reg.example.com" "" "").
Proof.
  exists {| Configs := {[ "reg.example.com" := credential "reg.example.com" "" "";
                          "registry.example.com"
                            := credential "registry.example.com" "user" "pass" ]} |}.
  assert (Hout :
    outcome (providerSetToRegistryAuth normalize world [inlineBlock; bareBlock; homeBlock])
    = Ok {| Configs := {[ "reg.example.com" := credential "reg.example.com" "" "";
                          "registry.example.com"
                            := credential "registry.example.com" "user" "pass" ]} |})
    by (vm_compute; reflexivity).
  split; [exact Hout |]. split; [reflexivity |].
  destruct (later_block_overwrites normalize world [inlineBlock] [homeBlock] bareBlock _ Hout)
    as (ac & Hac & Hlookup).
  - intros b' Hb'. apply list_elem_of_singleton in Hb' as ->. discriminate.
  - vm_compute in Hac. injection Hac as <-. exact Hlookup.
Defined.

Example decode_user_pass : decodeUserpass "dXNlcjpwYXNz" = Ok ("user", "pass").
Proof. reflexivity. Qed.

Example decode_not_base64 : decodeUserpass "not-valid-base64!!" = Err (CorruptInputError 3).
Proof. reflexivity. Qed.

Example decode_missing_padding : base64.DecodeString "dXNlcjpwYTpzcw" = Err (CorruptInputError 12).
Proof. reflexivity. Qed.

Example decode_skips_newlines :
  base64.DecodeString (String "d" (String "X" (String "010" "NlcjpwYXNz"))) = Ok "user:pass".
Proof. reflexivity. Qed.

Example resolve_inline_trailing_slash :
  providerSetToRegistryAuth normalize world
    [ {| address := "reg.example.com/"; username := Some "u"; password := "p";
         config_file := None |} ]
  = ([], Ok {| Configs := {[ "reg.example.com" := credential "reg.example.com" "u" "p" ]} |}).
Proof. vm_compute. reflexivity. Qed.

Example resolve_missing_file :
  providerSetToRegistryAuth normalize world [missingBlock]
  = ([CallOpen "/etc/docker/none.json"],
     Err (Errorf "Error opening docker registry config file: open /etc/docker/none.json: no such file or directory")).
Proof. vm_compute. reflexivity. Qed.

End Runs.

(** ** More about one block *)

Section MoreBlockFacts.
(** [N] is [normalizeRegistryAddress]. *)
Variable N : string -> string.
Variable W : World.

Lemma expandHome_cases (f : string) :
  expandHome W f =
    if strings.HasPrefix f "~/"
    then ([CallUserCurrent],
          match user_Current W with
          | inl homeDir => Ok (strings.ReplaceFirstByte f "~" homeDir)
          | inr msg => Err (OSError msg)
          end)
    else ([], Ok f).
Proof.
  unfold expandHome, io_bind, userCurrent, io_pure.
  destruct (strings.HasPrefix f "~/"); [| reflexivity].
  now destruct (user_Current W).
Qed.

Lemma fileBased_false (b : authBlock) :
  fileBased b = false ->
  nonEmpty (username b) = true \/
  (nonEmpty (username b) = false /\ nonEmpty (config_file b) = false).
Proof.
  unfold fileBased.
  destruct (nonEmpty (username b)), (nonEmpty (config_file b));
    cbn; intros; try discriminate; auto.
Qed.

Lemma fileBased_true (b : authBlock) :
  fileBased b = true ->
  nonEmpty (username b) = false /\ nonEmpty (config_file b) = true.
Proof.
  unfold fileBased.
  destruct (nonEmpty (username b)), (nonEmpty (config_file b));
    cbn; intros; try discriminate; auto.
Qed.

(** A block that is not file-based needs nothing of the world. *)
Lemma resolveBlock_inline (i : nat) (b : authBlock) :
  fileBased b = false ->
  resolveBlock N W i b =
    ([], Ok (if nonEmpty (username b)
             then credential (N (address b)) (default "" (username b)) (password b)
             else credential (N (address b)) "" "")).
Proof.
  intros Hb. unfold resolveBlock.
  destruct (fileBased_false _ Hb) as [Hu | [Hu Hf]]; now rewrite Hu, ?Hf.
Qed.

(** The system calls of a file-based block. *)
Lemma resolveBlock_file_trace (i : nat) (b : authBlock) :
  fileBased b = true ->
  trace (resolveBlock N W i b) =
    trace (expandHome W (default "" (config_file b)))
    ++ match outcome (expandHome W (default "" (config_file b))) with
       | Ok path => [CallOpen path]
       | Err _ => []
       end.
Proof.
  intros Hb. destruct (fileBased_true _ Hb) as [Hu Hf].
  unfold resolveBlock. rewrite Hu, Hf, fromConfigFile_run.
  destruct (expandHome W _) as [t [path | e]]; cbn [trace outcome fst snd];
    [| now rewrite app_nil_r].
  destruct (os_Open W path) as [content | msg]; [| reflexivity].
  destruct (newAuthConfigurations W i content) as [auths | e]; [| reflexivity].
  now destruct (last _) as [[reg fc] |].
Qed.

(** A block that resolves has opened its file. *)
Lemma resolveBlock_file_ok (i : nat) (b : authBlock) (ac : types.AuthConfig) :
  fileBased b = true ->
  outcome (resolveBlock N W i b) = Ok ac ->
  exists path, outcome (expandHome W (default "" (config_file b))) = Ok path.
Proof.
  intros Hb. destruct (fileBased_true _ Hb) as [Hu Hf].
  unfold resolveBlock. rewrite Hu, Hf, fromConfigFile_run.
  destruct (expandHome W _) as [t [path | e]]; [now exists path | discriminate].
Qed.

(** The record of a block has its normalized address, a user name and a
    password, and nothing else. *)
Lemma resolveBlock_shape (i : nat) (b : authBlock) (ac : types.AuthConfig) :
  outcome (resolveBlock N W i b) = Ok ac ->
  ac = credential (N (address b)) (types.Username ac) (types.Password ac).
Proof.
  unfold resolveBlock.
  destruct (nonEmpty (username b)); [now intros [= <-] |].
  destruct (nonEmpty (config_file b)); [| now intros [= <-]].
  rewrite fromConfigFile_run.
  destruct (expandHome W _) as [t [path | e]]; [| discriminate].
  destruct (os_Open W path) as [content | msg]; [| discriminate].
  destruct (newAuthConfigurations W i content) as [auths | e]; [| discriminate].
  destruct (last _) as [[reg fc] |]; [| discriminate].
  now intros [= <-].
Qed.

Lemma sameEffective_resolveBlock (i : nat) (b b' : authBlock) :
  sameEffective b b' -> resolveBlock N W i b = resolveBlock N W i b'.
Proof.
  intros (Ha & Hm & Hinline & Hfile). unfold resolveBlock.
  rewrite <- Ha, <- Hm.
  destruct (nonEmpty (username b)).
  - destruct (Hinline eq_refl) as [<- <-]. reflexivity.
  - destruct (Hfile eq_refl) as [Hc Hcf]. rewrite <- Hc.
    destruct (nonEmpty (config_file b)); [| reflexivity].
    now rewrite <- (Hcf eq_refl).
Qed.

Lemma newAuthConfigurations_err (i : nat) (r : string) (e : error) :
  newAuthConfigurations W i r = Err e ->
  e = ErrCannotParseDockercfg \/
  (exists offset, e = CorruptInputError offset) \/
  (exists msg, e = UnmarshalError msg).
Proof.
  unfold newAuthConfigurations.
  destruct (parseDockerConfig W r) as [confs | e'] eqn:Hparse.
  - destruct (authConfigs W i confs) as [c | e'] eqn:Hrun; [discriminate |].
    intros [= <-].
    destruct (authConfigsLoop_err _ _ _ Hrun) as (reg & conf & _ & _ & Hdec).
    destruct (decodeUserpass_err _ _ Hdec); auto.
  - intros [= <-]. right; right. revert Hparse.
    unfold parseDockerConfig, jsonUnmarshal.
    destruct (json_Unmarshal_auths W r) as [auths | msg].
    + destruct (0 <? size auths)%nat; [discriminate |].
      destruct (json_Unmarshal_confs W r); [discriminate |].
      intros [= <-]. now eexists.
    + destruct (json_Unmarshal_confs W r); [discriminate |].
      intros [= <-]. now eexists.
Qed.

(** X7: only a leading [~/] is expanded, into the home directory, and only
    then is [user.Current] called; the rest of the path, further tildes
    included, is kept as it is, and any other path is used unchanged
    whatever [user.Current] would return. *)
Theorem expandHome_leading_tilde :
  (forall rest,
      expandHome W ("~/" +:+ rest) =
        ([CallUserCurrent],
         match user_Current W with
         | inl homeDir => Ok (homeDir +:+ "/" +:+ rest)
         | inr msg => Err (OSError msg)
         end)) /\
  (forall f, strings.HasPrefix f "~/" = false -> expandHome W f = ([], Ok f)).
Proof.
  split.
  - intros rest. rewrite expandHome_cases.
    change ("~/" +:+ rest) with (String "~" (String "/" rest)).
    cbn. assert (strings.HasPrefix rest "" = true) as -> by now destruct rest.
    reflexivity.
  - intros f Hf. now rewrite expandHome_cases, Hf.
Qed.

End MoreBlockFacts.

(** ** More about the whole pass *)

Section PassWithoutFiles.
(** [N] is [normalizeRegistryAddress]. *)
Variable N : string -> string.

Lemma resolveFrom_without_files (blocks : list authBlock) :
  forall configs,
    (forall b, b ∈ blocks -> fileBased b = false) ->
    exists cfgs, forall W i, resolveFrom N W i blocks configs = ([], Ok cfgs).
Proof.
  induction blocks as [| b blocks IH]; intros configs Hall.
  - now exists {| Configs := configs |}.
  - assert (Hb : fileBased b = false) by (apply Hall, elem_of_cons; now left).
    destruct (IH (<[N (address b) :=
                     if nonEmpty (username b)
                     then credential (N (address b)) (default "" (username b)) (password b)
                     else credential (N (address b)) "" ""]> configs))
      as [cfgs Hcfgs].
    { intros b' Hb'. apply Hall, elem_of_cons. now right. }
    exists cfgs. intros W i.
    now rewrite resolveFrom_cons, (resolveBlock_inline N W i b Hb), Hcfgs.
Qed.

(** X1: a pass in which no block is file-based cannot fail and makes no
    system call; its result is the same in every world. *)
Theorem pass_without_files (blocks : list authBlock) :
  (forall b, b ∈ blocks -> fileBased b = false) ->
  exists cfgs, forall W, providerSetToRegistryAuth N W blocks = ([], Ok cfgs).
Proof.
  intros Hall. destruct (resolveFrom_without_files blocks ∅ Hall) as [cfgs Hcfgs].
  exists cfgs. intros W. apply Hcfgs.
Qed.

End PassWithoutFiles.

Section MorePassFacts.
(** [N] is [normalizeRegistryAddress]. *)
Variable N : string -> string.
Variable W : World.

Lemma pass_ok_blocks (blocks : list authBlock) (cfgs : AuthConfigs) :
  outcome (providerSetToRegistryAuth N W blocks) = Ok cfgs ->
  forall k b, blocks !! k = Some b ->
    exists ac, outcome (resolveBlock N W k b) = Ok ac.
Proof.
  unfold providerSetToRegistryAuth. intros Hout k b Hk.
  destruct (resolveFrom_cases N W blocks 0 ∅)
    as [(cfgs' & _ & _ & Hall) | (k' & b' & e & _ & _ & _ & Hfail & _)].
  - now apply (Hall k b).
  - congruence.
Qed.

Lemma pass_lookup_origin (blocks : list authBlock) (cfgs : AuthConfigs)
    (key : string) (ac : types.AuthConfig) :
  outcome (providerSetToRegistryAuth N W blocks) = Ok cfgs ->
  Configs cfgs !! key = Some ac ->
  exists k b, blocks !! k = Some b /\ N (address b) = key /\
              outcome (resolveBlock N W k b) = Ok ac.
Proof.
  unfold providerSetToRegistryAuth. intros Hout Hkey.
  destruct (resolveFrom_lookup_Some N W _ _ _ _ _ _ Hout Hkey)
    as [Hempty | (k & b & Hk & Haddr & Hres)].
  - rewrite lookup_empty in Hempty. discriminate.
  - now exists k, b.
Qed.

(** X2: every record of the returned set is a block's own: it is the record
    resolved for some block, it is stored under its own [ServerAddress], and
    its [Auth], [Email], [IdentityToken] and [RegistryToken] are empty. *)
Theorem resolved_records_carry_credentials_only (blocks : list authBlock)
    (cfgs : AuthConfigs) (key : string) (ac : types.AuthConfig) :
  outcome (providerSetToRegistryAuth N W blocks) = Ok cfgs ->
  Configs cfgs !! key = Some ac ->
  types.ServerAddress ac = key /\
  types.Auth ac = "" /\ types.Email ac = "" /\
  types.IdentityToken ac = "" /\ types.RegistryToken ac = "" /\
  exists k b, blocks !! k = Some b /\ N (address b) = key /\
              outcome (resolveBlock N W k b) = Ok ac.
Proof.
  intros Hout Hkey.
  destruct (pass_lookup_origin _ _ _ _ Hout Hkey) as (k & b & Hk & Haddr & Hres).
  rewrite (resolveBlock_shape N W k b ac Hres), Haddr.
  repeat split. exists k, b. repeat split; try assumption.
  now rewrite <- Haddr, <- (resolveBlock_shape N W k b ac Hres).
Qed.

Lemma size_list_to_set_le (l : list string) :
  (size (list_to_set l : gset string) <= length l)%nat /\
  (NoDup l <-> size (list_to_set l : gset string) = length l).
Proof.
  induction l as [| x l [IHle IHiff]].
  - split; [reflexivity |]. split; [reflexivity | intros _; constructor].
  - rewrite list_to_set_cons. cbn [length].
    destruct (decide (x ∈ l)) as [Hin | Hout].
    + assert (Hsame : {[x]} ∪ list_to_set l = (list_to_set l : gset string))
        by (apply subseteq_union_1_L, singleton_subseteq_l, elem_of_list_to_set, Hin).
      rewrite Hsame. split; [lia |]. rewrite NoDup_cons. split; [tauto | lia].
    + rewrite size_union, size_singleton
        by (apply disjoint_singleton_l; now rewrite elem_of_list_to_set).
      split; [lia |]. rewrite NoDup_cons. split.
      * intros [_ Hnd]. apply IHiff in Hnd. lia.
      * intros Hsize. split; [exact Hout |]. apply IHiff. lia.
Qed.

Lemma pass_dom (blocks : list authBlock) (cfgs : AuthConfigs) :
  outcome (providerSetToRegistryAuth N W blocks) = Ok cfgs ->
  dom (Configs cfgs) = (list_to_set ((fun b => N (address b)) <$> blocks) : gset string).
Proof.
  unfold providerSetToRegistryAuth. intros Hout. apply set_eq. intros key.
  rewrite elem_of_dom, (resolveFrom_keys N W _ _ _ _ key Hout), elem_of_list_to_set,
    list_elem_of_fmap, lookup_empty.
  split.
  - intros [[x Hx] | (b & Hb & ->)]; [discriminate | now exists b].
  - intros (b & -> & Hb). right. now exists b.
Qed.

(** X3: the returned set has at most one record per block, and exactly one
    per block when, and only when, no two blocks have the same normalized
    address. *)
Theorem resolved_set_size (blocks : list authBlock) (cfgs : AuthConfigs) :
  outcome (providerSetToRegistryAuth N W blocks) = Ok cfgs ->
  (size (Configs cfgs) <= length blocks)%nat /\
  (NoDup ((fun b => N (address b)) <$> blocks) <->
   size (Configs cfgs) = length blocks).
Proof.
  intros Hout. rewrite <- size_dom, (pass_dom _ _ Hout).
  destruct (size_list_to_set_le ((fun b => N (address b)) <$> blocks)) as [Hle Hiff].
  rewrite length_fmap in Hle, Hiff. now split.
Qed.

End MorePassFacts.

Section PassBehaviour.
(** [N] is [normalizeRegistryAddress]. *)
Variable N : string -> string.
Variable W : World.

(** X4: an error of the pass is the error of a file-based block, in one of
    four forms: the error of [user.Current] as it is, or a new error whose
    message is the opening, parsing or lookup message.  A decode or JSON
    error is only ever inside such a message: neither the sentinel
    [ErrCannotParseDockercfg] nor a base64 or JSON error value is returned. *)
Theorem pass_errors (blocks : list authBlock) (e : error) :
  outcome (providerSetToRegistryAuth N W blocks) = Err e ->
  (exists k b,
      blocks !! k = Some b /\ fileBased b = true /\
      outcome (resolveBlock N W k b) = Err e /\
      ((exists msg, user_Current W = inr msg /\ e = OSError msg) \/
       (exists path msg,
           os_Open W path = inr msg /\
           e = Errorf ("Error opening docker registry config file: " +:+ msg)) \/
       (exists e',
           (e' = ErrCannotParseDockercfg \/
            (exists offset, e' = CorruptInputError offset) \/
            (exists msg, e' = UnmarshalError msg)) /\
           e = Errorf ("Error parsing docker registry config json: " +:+ Error e')) \/
       (exists path, e = Errorf (notFoundMessage (N (address b)) path)))) /\
  e <> ErrCannotParseDockercfg /\
  (forall offset, e <> CorruptInputError offset) /\
  (forall msg, e <> UnmarshalError msg).
Proof.
  unfold providerSetToRegistryAuth. intros Hout.
  destruct (resolveFrom_cases N W blocks 0 ∅)
    as [(cfgs & Hok & _) | (k & b & e' & Hk & _ & Hfail & Herr & _)]; [congruence |].
  rewrite Hout in Herr. injection Herr as <-. cbn [Nat.add] in Hfail.
  assert (Hfile : fileBased b = true).
  { destruct (fileBased b) eqn:Hb; [reflexivity |].
    rewrite (resolveBlock_inline N W k b Hb) in Hfail. discriminate. }
  assert (Hforms :
    (exists msg, user_Current W = inr msg /\ e = OSError msg) \/
    (exists path msg,
        os_Open W path = inr msg /\
        e = Errorf ("Error opening docker registry config file: " +:+ msg)) \/
    (exists e',
        (e' = ErrCannotParseDockercfg \/
         (exists offset, e' = CorruptInputError offset) \/
         (exists msg, e' = UnmarshalError msg)) /\
        e = Errorf ("Error parsing docker registry config json: " +:+ Error e')) \/
    (exists path, e = Errorf (notFoundMessage (N (address b)) path))).
  { destruct (resolveBlock_errors N W k b e Hfail)
      as [H | [H | [(path & content & e' & _ & Hparse & ->) | H]]]; auto.
    right; right; left. exists e'. split; [| reflexivity].
    apply (newAuthConfigurations_err W k content e' Hparse). }
  split; [exists k, b; now repeat split |].
  destruct Hforms as [(msg & _ & ->) | [(path & msg & _ & ->) | [(e' & _ & ->) | (path & ->)]]];
    repeat split; intros; discriminate.
Qed.

Lemma resolveBlock_counts (i : nat) (b : authBlock) :
  (length (List.filter isOpen (trace (resolveBlock N W i b)))
   <= if fileBased b then 1 else 0)%nat /\
  (length (List.filter isUserCurrent (trace (resolveBlock N W i b)))
   <= if homeBased b then 1 else 0)%nat /\
  (forall ac, outcome (resolveBlock N W i b) = Ok ac ->
     length (List.filter isOpen (trace (resolveBlock N W i b)))
     = (if fileBased b then 1 else 0)%nat /\
     length (List.filter isUserCurrent (trace (resolveBlock N W i b)))
     = (if homeBased b then 1 else 0)%nat).
Proof.
  unfold homeBased. destruct (fileBased b) eqn:Hb.
  - pose proof (resolveBlock_file_ok N W i b) as Hok.
    rewrite (resolveBlock_file_trace N W i b Hb), expandHome_cases in *.
    cbn [andb].
    destruct (strings.HasPrefix _ "~/"); cbn [trace outcome fst snd] in *.
    + destruct (user_Current W) as [homeDir | msg]; cbn;
        (split; [lia | split; [lia |]]); intros ac Hac.
      * split; reflexivity.
      * destruct (Hok ac Hb Hac); discriminate.
    + cbn. split; [lia | split; [lia |]]. intros ac Hac. split; reflexivity.
  - rewrite (resolveBlock_inline N W i b Hb). cbn.
    split; [lia | split; [lia |]]. intros ac Hac. split; reflexivity.
Qed.

Lemma resolveFrom_counts (blocks : list authBlock) :
  forall i configs,
    (length (List.filter isOpen (trace (resolveFrom N W i blocks configs)))
     <= length (List.filter fileBased blocks))%nat /\
    (length (List.filter isUserCurrent (trace (resolveFrom N W i blocks configs)))
     <= length (List.filter homeBased blocks))%nat /\
    (forall cfgs, outcome (resolveFrom N W i blocks configs) = Ok cfgs ->
       length (List.filter isOpen (trace (resolveFrom N W i blocks configs)))
       = length (List.filter fileBased blocks) /\
       length (List.filter isUserCurrent (trace (resolveFrom N W i blocks configs)))
       = length (List.filter homeBased blocks)).
Proof.
  induction blocks as [| b blocks IH]; intros i configs.
  - cbn. split; [lia | split; [lia |]]. intros cfgs Hcfgs. split; reflexivity.
  - rewrite resolveFrom_cons.
    destruct (resolveBlock_counts i b) as (Ho & Hu & Heq).
    destruct (resolveBlock N W i b) as [t [ac | e]]; cbn [trace outcome fst snd] in *.
    + destruct (IH (S i) (<[N (address b) := ac]> configs)) as (IHo & IHu & IHeq).
      destruct (Heq ac eq_refl) as [Heqo Hequ].
      cbn [List.filter]. rewrite !List.filter_app, !length_app.
      split; [| split].
      * destruct (fileBased b); cbn [length]; lia.
      * destruct (homeBased b); cbn [length]; lia.
      * intros cfgs Hcfgs. destruct (IHeq cfgs Hcfgs) as [IHeqo IHequ].
        destruct (fileBased b), (homeBased b); cbn [length]; lia.
    + cbn [List.filter]. split; [| split].
      * destruct (fileBased b); cbn [length]; lia.
      * destruct (homeBased b); cbn [length]; lia.
      * discriminate.
Qed.

(** X5: nothing is cached between blocks.  A pass that succeeds has opened
    one file per file-based block, the same file again when two blocks name
    it, and has asked for the home directory once per block whose path
    starts with [~/]; a pass that fails has made no more calls than that. *)
Theorem one_open_per_file_block (blocks : list authBlock) :
  (length (List.filter isOpen (trace (providerSetToRegistryAuth N W blocks)))
   <= length (List.filter fileBased blocks))%nat /\
  (length (List.filter isUserCurrent (trace (providerSetToRegistryAuth N W blocks)))
   <= length (List.filter homeBased blocks))%nat /\
  (forall cfgs,
      outcome (providerSetToRegistryAuth N W blocks) = Ok cfgs ->
      length (List.filter isOpen (trace (providerSetToRegistryAuth N W blocks)))
      = length (List.filter fileBased blocks) /\
      length (List.filter isUserCurrent (trace (providerSetToRegistryAuth N W blocks)))
      = length (List.filter homeBased blocks)).
Proof. apply resolveFrom_counts. Qed.

Lemma sameEffective_resolveFrom (blocks blocks' : list authBlock) :
  Forall2 sameEffective blocks blocks' ->
  forall i configs,
    resolveFrom N W i blocks configs = resolveFrom N W i blocks' configs.
Proof.
  induction 1 as [| b b' blocks blocks' Hb _ IH]; intros i configs; [reflexivity |].
  rewrite !resolveFrom_cons, <- (sameEffective_resolveBlock N W i b b' Hb).
  destruct Hb as [<- _].
  destruct (resolveBlock N W i b) as [t [ac | e]]; [| reflexivity].
  now rewrite IH.
Qed.

(** X12: the fields that do not belong to the mode of a block have no
    effect at all.  Two passes whose blocks agree, one by one, on the
    address, on the mode and on the fields of that mode (user name and
    password for an inline block, the config file for a file-based block)
    make the same system calls and return the same result: the config file
    of an inline block is never looked at, and the password of a block
    without a user name is dropped. *)
Theorem fields_outside_the_mode_are_ignored (blocks blocks' : list authBlock) :
  Forall2 sameEffective blocks blocks' ->
  providerSetToRegistryAuth N W blocks = providerSetToRegistryAuth N W blocks'.
Proof. intros Hsame. now apply sameEffective_resolveFrom. Qed.

End PassBehaviour.

Section PassOrder.
(** [N] is [normalizeRegistryAddress]. *)
Variable N : string -> string.
Variable W : World.

Lemma same_key_same_block (l : list authBlock) (x y : authBlock) :
  NoDup ((fun b => N (address b)) <$> l) ->
  x ∈ l -> y ∈ l -> N (address x) = N (address y) -> x = y.
Proof.
  induction l as [| a l IH]; intros Hnd Hx Hy Hkey.
  - now apply elem_of_nil in Hx.
  - rewrite fmap_cons in Hnd. apply NoDup_cons in Hnd as [Hfresh Hnd].
    apply elem_of_cons in Hx as [-> | Hx], Hy as [-> | Hy].
    + reflexivity.
    + destruct Hfresh. apply list_elem_of_fmap. now exists y.
    + destruct Hfresh. apply list_elem_of_fmap. now exists x.
    + now apply IH.
Qed.

(** X6: with pairwise distinct normalized addresses, the order of the blocks
    does not matter for the set returned.  If a pass succeeds and the
    resolution of each block does not depend on its position (it can only
    through the order in which the runtime visits a map), the pass over any
    permutation of the blocks succeeds with the same set. *)
Theorem pass_order_irrelevant (l1 l2 : list authBlock) (cfgs : AuthConfigs) :
  l1 ≡ₚ l2 ->
  NoDup ((fun b => N (address b)) <$> l1) ->
  (forall b i j, b ∈ l1 ->
     outcome (resolveBlock N W i b) = outcome (resolveBlock N W j b)) ->
  outcome (providerSetToRegistryAuth N W l1) = Ok cfgs ->
  outcome (providerSetToRegistryAuth N W l2) = Ok cfgs.
Proof.
  intros Hperm Hnd Hindep Hout1.
  pose proof (pass_ok_blocks N W l1 cfgs Hout1) as Hall1.
  assert (Hres : forall b, b ∈ l1 -> forall i,
            exists ac, outcome (resolveBlock N W i b) = Ok ac).
  { intros b Hb i. apply list_elem_of_lookup in Hb as [k Hk].
    destruct (Hall1 k b Hk) as [ac Hac]. exists ac.
    rewrite <- Hac. apply Hindep. apply list_elem_of_lookup. now exists k. }
  destruct (outcome (providerSetToRegistryAuth N W l2)) as [cfgs2 | e] eqn:Hout2.
  - f_equal. destruct cfgs as [m1], cfgs2 as [m2]. f_equal. apply map_eq. intros key.
    cbn [Configs] in *.
    destruct (m2 !! key) as [ac2 |] eqn:H2, (m1 !! key) as [ac1 |] eqn:H1.
    + destruct (pass_lookup_origin N W l1 _ key ac1 Hout1 H1)
        as (k1 & b1 & Hk1 & Hkey1 & Hres1).
      destruct (pass_lookup_origin N W l2 _ key ac2 Hout2 H2)
        as (k2 & b2 & Hk2 & Hkey2 & Hres2).
      assert (Hb1 : b1 ∈ l1) by (apply list_elem_of_lookup; now exists k1).
      assert (Hb2 : b2 ∈ l1)
        by (rewrite Hperm; apply list_elem_of_lookup; now exists k2).
      assert (b2 = b1) as -> by (apply (same_key_same_block l1); congruence).
      rewrite (Hindep b1 k2 k1 Hb1) in Hres2. congruence.
    + exfalso.
      assert (Hdom : key ∈ dom m1).
      { change m1 with (Configs {| Configs := m1 |}).
        rewrite (pass_dom N W l1 _ Hout1), Hperm,
          <- (pass_dom N W l2 {| Configs := m2 |} Hout2).
        apply elem_of_dom. now exists ac2. }
      apply elem_of_dom in Hdom as [x Hx]. congruence.
    + exfalso.
      assert (Hdom : key ∈ dom m2).
      { change m2 with (Configs {| Configs := m2 |}).
        rewrite (pass_dom N W l2 _ Hout2), <- Hperm,
          <- (pass_dom N W l1 {| Configs := m1 |} Hout1).
        apply elem_of_dom. now exists ac1. }
      apply elem_of_dom in Hdom as [x Hx]. congruence.
    + reflexivity.
  - exfalso. revert Hout2. unfold providerSetToRegistryAuth. intros Hout2.
    destruct (resolveFrom_cases N W l2 0 ∅)
      as [(cfgs' & Hok & _) | (k & b & e' & Hk & _ & Hfail & _)]; [congruence |].
    assert (Hb : b ∈ l1) by (rewrite Hperm; apply list_elem_of_lookup; now exists k).
    destruct (Hres b Hb (0 + k)%nat) as [ac Hac]. congruence.
Qed.

End PassOrder.

(** ** More about [authConfigs] *)

Section MoreAuthConfigsFacts.

Lemma not_undecodable_step (conf : dockerConfig) :
  (forall e, ~ undecodable conf e) ->
  String.eqb (Auth conf) "" = true \/
  (String.eqb (Auth conf) "" = false /\ exists up, decodeUserpass (Auth conf) = Ok up).
Proof.
  intros Hgood. destruct (String.eqb (Auth conf) "") eqn:Hempty; [now left | right].
  split; [reflexivity |].
  destruct (decodeUserpass (Auth conf)) as [up | e] eqn:Hdec; [now exists up |].
  destruct (Hgood e). split; [now apply eqb_nonempty | exact Hdec].
Qed.

Lemma authConfigsLoop_first_err (entries : list (string * dockerConfig)) :
  forall c0 e,
    authConfigsLoop entries c0 = Err e <->
    exists pre reg conf post,
      entries = pre ++ (reg, conf) :: post /\ undecodable conf e /\
      forall r c e', (r, c) ∈ pre -> ~ undecodable c e'.
Proof.
  induction entries as [| [reg0 conf0] entries IH]; intros c0 e.
  - split; [discriminate |].
    intros (pre & reg & conf & post & Heq & _). now destruct pre.
  - cbn [authConfigsLoop]. split.
    + intros Hloop.
      assert (Hnext : forall c1,
        authConfigsLoop entries c1 = Err e ->
        (forall e', ~ undecodable conf0 e') ->
        exists pre reg conf post,
          (reg0, conf0) :: entries = pre ++ (reg, conf) :: post /\ undecodable conf e /\
          forall r c e', (r, c) ∈ pre -> ~ undecodable c e').
      { intros c1 Hrest Hgood.
        apply IH in Hrest as (pre & reg & conf & post & -> & Hbad & Hpre).
        exists ((reg0, conf0) :: pre), reg, conf, post.
        split; [reflexivity |]. split; [exact Hbad |].
        intros r c e' Hin. apply elem_of_cons in Hin as [[= -> ->] | Hin];
          [apply Hgood | now apply (Hpre r c)]. }
      destruct (String.eqb (Auth conf0) "") eqn:Hempty.
      * apply (Hnext _ Hloop). intros e' [Hne _]. now apply eqb_empty in Hempty.
      * destruct (decodeUserpass (Auth conf0)) as [[user pass] | e0] eqn:Hdec.
        -- apply (Hnext _ Hloop). intros e' [_ Hbad]. congruence.
        -- injection Hloop as <-. exists [], reg0, conf0, entries.
           split; [reflexivity |]. split.
           ++ split; [now apply eqb_nonempty | exact Hdec].
           ++ intros r c e' Hin. now apply elem_of_nil in Hin.
    + intros (pre & reg & conf & post & Heq & [Hne Hbad] & Hpre).
      destruct pre as [| [r c] pre].
      * injection Heq as -> -> ->. apply eqb_nonempty in Hne. now rewrite Hne, Hbad.
      * injection Heq as <- <- ->.
        assert (Hrest : forall c1, authConfigsLoop (pre ++ (reg, conf) :: post) c1 = Err e).
        { intros c1. apply IH. exists pre, reg, conf, post.
          split; [reflexivity |]. split; [now split |].
          intros r' c' e' Hin. apply (Hpre r' c'), elem_of_cons. now right. }
        destruct (not_undecodable_step conf0) as [-> | [-> [[user pass] ->]]].
        -- intros e'. apply (Hpre reg0 conf0), elem_of_cons. now left.
        -- apply Hrest.
        -- apply Hrest.
Qed.

(** X9: when several entries of a file cannot be decoded, the error
    returned is that of the one visited first: [authConfigs] fails with [e]
    exactly when the order in which the map is visited has an entry that
    fails to decode with [e] and none that fails before it. *)
Theorem authConfigs_first_undecodable (W : World) (i : nat)
    (confs : gmap string dockerConfig) (e : error) :
  authConfigs W i confs = Err e <->
  exists pre reg conf post,
    range_confs W i confs = pre ++ (reg, conf) :: post /\ undecodable conf e /\
    forall r c e', (r, c) ∈ pre -> ~ undecodable c e'.
Proof. apply authConfigsLoop_first_err. Qed.

Lemma authConfigs_any_order (W1 W2 : World) (i j : nat)
    (confs : gmap string dockerConfig) (c : AuthConfigs) :
  range_sound W1 -> range_sound W2 ->
  authConfigs W1 i confs = Ok c -> authConfigs W2 j confs = Ok c.
Proof.
  intros Hs1 Hs2 Hrun1.
  destruct (authConfigs W2 j confs) as [c2 | e] eqn:Hrun2.
  - f_equal. destruct c as [m1], c2 as [m2]. f_equal. apply map_eq. intros reg.
    pose proof (authConfigs_lookup W1 Hs1 _ _ _ Hrun1 reg) as H1.
    pose proof (authConfigs_lookup W2 Hs2 _ _ _ Hrun2 reg) as H2.
    cbn [Configs] in *. congruence.
  - exfalso.
    destruct (authConfigs_err W2 Hs2 _ _ _ Hrun2) as (reg & conf & Hreg & Hbad).
    apply (authConfigsLoop_ok _ _ _ Hrun1 reg conf e); [| exact Hbad].
    now apply (range_confs_elem W1 Hs1).
Qed.

(** X8: the order in which the map is visited has no influence on a
    successful result: if [authConfigs] succeeds under one order, it succeeds
    with the same map under every order, and if it fails under one order it
    fails under every order. *)
Theorem authConfigs_order_irrelevant (W1 W2 : World) (i j : nat)
    (confs : gmap string dockerConfig) :
  range_sound W1 -> range_sound W2 ->
  (forall c, authConfigs W1 i confs = Ok c -> authConfigs W2 j confs = Ok c) /\
  (forall e, authConfigs W1 i confs = Err e -> exists e', authConfigs W2 j confs = Err e').
Proof.
  intros Hs1 Hs2. split.
  - intros c. now apply authConfigs_any_order.
  - intros e Hrun1.
    destruct (authConfigs W2 j confs) as [c | e'] eqn:Hrun2; [| now exists e'].
    rewrite (authConfigs_any_order W2 W1 j i confs c Hs2 Hs1 Hrun2) in Hrun1.
    discriminate.
Qed.

Lemma decodeUserpass_ok (auth u p : string) :
  decodeUserpass auth = Ok (u, p) ->
  base64.DecodeString auth = Ok (u +:+ ":" +:+ p) /\ strings.ContainsByte u ":" = false.
Proof.
  unfold decodeUserpass, strings.SplitN2.
  destruct (base64.DecodeString auth) as [data | e]; [| discriminate].
  destruct (strings.cut data ":") as [[before after] |] eqn:Hparts; [| discriminate].
  intros [= <- <-]. destruct (cut_some _ _ _ _ Hparts) as [-> Hbefore].
  now split.
Qed.

(** X10: every record [authConfigs] returns can be traced back to the file:
    it sits under the key of the entry it was made from, which is also its
    [ServerAddress], it has that entry's [Auth] and [Email] and no token, its
    [Auth] is not empty, and decoding its [Auth] gives its user name, a colon
    and its password, the user name being free of colons. *)
Theorem authConfigs_records_decode (W : World) (i : nat)
    (confs : gmap string dockerConfig) (c : AuthConfigs)
    (reg : string) (ac : types.AuthConfig) :
  range_sound W ->
  authConfigs W i confs = Ok c ->
  Configs c !! reg = Some ac ->
  exists conf,
    confs !! reg = Some conf /\
    types.ServerAddress ac = reg /\
    types.Auth ac = Auth conf /\ types.Auth ac <> "" /\
    types.Email ac = Email conf /\
    types.IdentityToken ac = "" /\ types.RegistryToken ac = "" /\
    base64.DecodeString (types.Auth ac)
    = Ok (types.Username ac +:+ ":" +:+ types.Password ac) /\
    strings.ContainsByte (types.Username ac) ":" = false.
Proof.
  intros Hsound Hrun Hreg.
  rewrite (authConfigs_lookup W Hsound _ _ _ Hrun reg) in Hreg.
  destruct (confs !! reg) as [conf |]; [| discriminate].
  cbn [mbind option_bind] in Hreg. exists conf. split; [reflexivity |].
  unfold entryOf in Hreg.
  destruct (String.eqb (Auth conf) "") eqn:Hempty; [discriminate |].
  apply eqb_nonempty in Hempty.
  destruct (decodeUserpass (Auth conf)) as [[user pass] | e] eqn:Hdec; [| discriminate].
  injection Hreg as <-. cbn.
  destruct (decodeUserpass_ok _ _ _ Hdec) as [Hdata Hcolon].
  now repeat split.
Qed.

End MoreAuthConfigsFacts.

(** ** The caller *)

Section ConfigureFacts.
Context {Client : Type}.
(** [N] is [normalizeRegistryAddress]. *)
Variable N : string -> string.
Variable W : World.
Variable D : Daemon Client.

(** X13: the daemon comes first.  The steps of [providerConfigure] are, in
    this order, the making of the client from the five attributes, the ping
    when there is a client, and the system calls of the pass over the blocks
    when the ping was answered and [registry_auth] is set, and nothing else:
    every system call for the credentials (home directory, open) comes after
    the ping, which succeeded. *)
Theorem files_read_only_after_ping (d : ResourceData) :
  fst (providerConfigure N W D d) =
    StepNewClient (configOf d)
    :: match NewClient D (configOf d) with
       | inr _ => []
       | inl client =>
           StepPing
           :: match Ping D client, registry_auth d with
              | inl _, Some blocks =>
                  map StepSys (trace (providerSetToRegistryAuth N W blocks))
              | _, _ => []
              end
       end /\
  (StepPing ∈ fst (providerConfigure N W D d) <->
   exists client, NewClient D (configOf d) = inl client) /\
  (forall c pre post,
      fst (providerConfigure N W D d) = pre ++ StepSys c :: post ->
      StepNewClient (configOf d) ∈ pre /\ StepPing ∈ pre /\
      exists client blocks,
        NewClient D (configOf d) = inl client /\
        Ping D client = inl tt /\
        registry_auth d = Some blocks /\
        c ∈ trace (providerSetToRegistryAuth N W blocks)).
Proof.
  assert (Hform :
    fst (providerConfigure N W D d) =
      StepNewClient (configOf d)
      :: match NewClient D (configOf d) with
         | inr _ => []
         | inl client =>
             StepPing
             :: match Ping D client, registry_auth d with
                | inl _, Some blocks =>
                    map StepSys (trace (providerSetToRegistryAuth N W blocks))
                | _, _ => []
                end
         end).
  { unfold providerConfigure. fold (configOf d).
    destruct (NewClient D (configOf d)) as [client | msg]; [| reflexivity].
    destruct (Ping D client) as [[] | msg]; [| reflexivity].
    destruct (registry_auth d) as [blocks |]; [| reflexivity].
    now destruct (providerSetToRegistryAuth N W blocks) as [t [cfgs | e]]. }
  assert (Hshort : forall c pre post l,
            (forall x, x ∈ l -> x = StepNewClient (configOf d) \/ x = StepPing) ->
            l = pre ++ StepSys c :: post -> False).
  { intros c pre post l Hl Heq.
    destruct (Hl (StepSys c)) as [[=] | [=]].
    rewrite Heq. apply elem_of_app. right. apply elem_of_cons. now left. }
  split; [exact Hform |]. rewrite Hform.
  destruct (NewClient D (configOf d)) as [client | msg] eqn:Hnew.
  - split.
    { split; [now eexists |]. intros _.
      apply elem_of_cons. right. apply elem_of_cons. now left. }
    intros c pre post Heq.
    destruct (Ping D client) as [[] | msg] eqn:Hping;
      [destruct (registry_auth d) as [blocks |] eqn:Hauth |].
    + destruct pre as [| x [| y pre]]; try discriminate.
      injection Heq as <- <- Hrest.
      split; [apply elem_of_cons; now left |].
      split; [apply elem_of_cons; right; apply elem_of_cons; now left |].
      exists client, blocks.
      split; [reflexivity |]. split; [exact Hping |]. split; [reflexivity |].
      assert (Hin : StepSys c ∈ map StepSys (trace (providerSetToRegistryAuth N W blocks))).
      { rewrite Hrest. apply elem_of_app. right. apply elem_of_cons. now left. }
      apply list_elem_of_fmap in Hin as (c' & [= ->] & Hc'). exact Hc'.
    + exfalso. refine (Hshort c pre post _ _ Heq).
      intros x Hx. apply elem_of_cons in Hx as [-> | Hx]; [now left |].
      apply elem_of_cons in Hx as [-> | Hx]; [now right |].
      now apply elem_of_nil in Hx.
    + exfalso. refine (Hshort c pre post _ _ Heq).
      intros x Hx. apply elem_of_cons in Hx as [-> | Hx]; [now left |].
      apply elem_of_cons in Hx as [-> | Hx]; [now right |].
      now apply elem_of_nil in Hx.
  - split.
    + split; [| intros [client [=]]].
      intros Hin. apply elem_of_cons in Hin as [[=] | Hin].
      now apply elem_of_nil in Hin.
    + intros c pre post Heq.
      exfalso. refine (Hshort c pre post _ _ Heq).
      intros x Hx. apply elem_of_cons in Hx as [-> | Hx]; [now left |].
      now apply elem_of_nil in Hx.
Qed.

(** X14: what [providerConfigure] returns.  On success the client is the
    one [NewClient] made, the ping was answered and the credentials are
    exactly the result of the pass over the blocks (the empty map when
    [registry_auth] is not set).  An error is always a new error whose
    message is one of the three prefixes followed by the message of the
    cause, and a failure of the pass makes the whole configuration fail even
    though the daemon answered. *)
Theorem configure_outcome (d : ResourceData) :
  (forall pc,
      snd (providerConfigure N W D d) = Ok pc ->
      NewClient D (configOf d) = inl (provider.DockerClient pc) /\
      Ping D (provider.DockerClient pc) = inl tt /\
      match registry_auth d with
      | Some blocks =>
          outcome (providerSetToRegistryAuth N W blocks) = Ok (provider.AuthConfigs pc)
      | None => Configs (provider.AuthConfigs pc) = ∅
      end) /\
  (forall e,
      snd (providerConfigure N W D d) = Err e ->
      (exists msg,
          NewClient D (configOf d) = inr msg /\
          e = Errorf ("Error initializing Docker client: " +:+ msg)) \/
      (exists client msg,
          NewClient D (configOf d) = inl client /\ Ping D client = inr msg /\
          e = Errorf ("Error pinging Docker server: " +:+ msg)) \/
      (exists client blocks e',
          NewClient D (configOf d) = inl client /\ Ping D client = inl tt /\
          registry_auth d = Some blocks /\
          outcome (providerSetToRegistryAuth N W blocks) = Err e' /\
          e = Errorf ("Error loading registry auth config: " +:+ Error e'))) /\
  (forall blocks e',
      registry_auth d = Some blocks ->
      outcome (providerSetToRegistryAuth N W blocks) = Err e' ->
      exists e, snd (providerConfigure N W D d) = Err e).
Proof.
  unfold providerConfigure. fold (configOf d).
  destruct (NewClient D (configOf d)) as [client | msg] eqn:Hnew.
  - destruct (Ping D client) as [[] | msg] eqn:Hping.
    + destruct (registry_auth d) as [blocks |] eqn:Hauth.
      * destruct (providerSetToRegistryAuth N W blocks) as [t [cfgs | e]] eqn:Hpass;
          cbn [snd outcome].
        -- split; [| split].
           ++ intros pc [= <-]. cbn. now repeat split.
           ++ discriminate.
           ++ intros blocks' e' [= <-]. rewrite Hpass. discriminate.
        -- split; [| split].
           ++ discriminate.
           ++ intros e0 [= <-]. right; right. exists client, blocks, e.
              rewrite Hpass. now repeat split.
           ++ intros. now eexists.
      * cbn [snd]. split; [| split].
        -- intros pc [= <-]. cbn. now repeat split.
        -- discriminate.
        -- discriminate.
    + cbn [snd]. split; [| split].
      * discriminate.
      * intros e [= <-]. right; left. now exists client, msg.
      * intros. now eexists.
  - cbn [snd]. split; [| split].
    + discriminate.
    + intros e [= <-]. left. now exists msg.
    + intros. now eexists.
Qed.

End ConfigureFacts.

(** ** Line breaks and padding in an [auth] value *)

Section LineBreaks.
Import base64.

Lemma newline_invalid (c : ascii) :
  isNewline c = true -> (decodeMap c =? 255) = true /\ Ascii.eqb c padChar = false.
Proof.
  unfold isNewline. intros Hc. apply orb_prop in Hc as [Hc | Hc];
    apply Ascii.eqb_eq in Hc as ->; now split.
Qed.

Lemma valid_not_newline (c : ascii) :
  (decodeMap c =? 255) = false -> isNewline c = false.
Proof.
  intros Hc. destruct (isNewline c) eqn:Hnl; [| reflexivity].
  destruct (newline_invalid c Hnl). congruence.
Qed.

Lemma strip_skip (s : string) (si : Z) :
  skipNewlines (stripNewlines s) si = (stripNewlines s, si).
Proof.
  induction s as [| c s IH]; [reflexivity |]. cbn [stripNewlines].
  destruct (isNewline c) eqn:Hc; [exact IH |].
  cbn [skipNewlines]. now rewrite Hc.
Qed.

Lemma skip_strip (rest : string) :
  forall si,
    stripNewlines (fst (skipNewlines rest si)) = stripNewlines rest /\
    (fst (skipNewlines rest si) = "" \/
     exists c r, fst (skipNewlines rest si) = String c r /\ isNewline c = false).
Proof.
  induction rest as [| c rest IH]; intros si; cbn [skipNewlines stripNewlines].
  - split; [reflexivity | now left].
  - destruct (isNewline c) eqn:Hc; [apply IH |].
    cbn [fst stripNewlines]. rewrite Hc. split; [reflexivity |].
    right. now exists c, rest.
Qed.

Lemma finish_strip (rest : string) (si si' : Z) (out : string) :
  okOf (finish rest si out) = okOf (finish (stripNewlines rest) si' out).
Proof.
  unfold finish. rewrite strip_skip.
  destruct (skip_strip rest si) as [Hs Hhead].
  destruct (skipNewlines rest si) as [r s1]. cbn [fst] in *.
  destruct Hhead as [-> | (c & r' & -> & Hc)].
  - now rewrite <- Hs.
  - rewrite <- Hs. cbn [stripNewlines]. now rewrite Hc.
Qed.

Lemma okOf_prepend (out : string) (r1 r2 : result string) :
  okOf r1 = okOf r2 -> okOf (prepend out r1) = okOf (prepend out r2).
Proof. destruct r1, r2; cbn; congruence. Qed.

(** Carriage returns and line feeds do not change what is decoded. *)
Lemma decodeFrom_strip (s : string) :
  forall si si' dbuf,
    okOf (decodeFrom s si dbuf) = okOf (decodeFrom (stripNewlines s) si' dbuf).
Proof.
  induction s as [| c rest IH]; intros si si' dbuf.
  - cbn. now destruct dbuf.
  - cbn [stripNewlines]. destruct (isNewline c) eqn:Hnl.
    + cbn [decodeFrom]. destruct (newline_invalid c Hnl) as [-> _]. cbn [negb].
      rewrite Hnl. apply IH.
    + cbn [decodeFrom]. rewrite Hnl.
      destruct (negb (decodeMap c =? 255)).
      * destruct (length (dbuf ++ [decodeMap c]) =? 4)%nat; [| apply IH].
        apply okOf_prepend, IH.
      * destruct (negb (Ascii.eqb c padChar)); [reflexivity |].
        destruct (length dbuf) as [| [| [| n]]]; try reflexivity; [| apply finish_strip].
        rewrite strip_skip.
        destruct (skip_strip rest (si + 1)) as [Hs Hhead].
        destruct (skipNewlines rest (si + 1)) as [r s1]. cbn [fst] in *.
        destruct Hhead as [-> | (c2 & r2 & -> & Hc2)].
        -- now rewrite <- Hs.
        -- rewrite <- Hs. cbn [stripNewlines]. rewrite Hc2.
           destruct (negb (Ascii.eqb c2 padChar)); [reflexivity |].
           apply finish_strip.
Qed.

Lemma okOf_Ok {A} (r : result A) (v : A) : okOf r = Some v <-> r = Ok v.
Proof. destruct r; cbn; split; congruence. Qed.

(** X15: line breaks in an [auth] value are ignored.  The value and the
    value without its carriage returns and line feeds decode to the same
    bytes, hence to the same user name and password, and one lacks the colon
    exactly when the other does. *)
Theorem auth_line_breaks_are_ignored (auth : string) :
  (forall data,
      DecodeString auth = Ok data <-> DecodeString (stripNewlines auth) = Ok data) /\
  (forall up,
      decodeUserpass auth = Ok up <-> decodeUserpass (stripNewlines auth) = Ok up) /\
  (decodeUserpass auth = Err ErrCannotParseDockercfg <->
   decodeUserpass (stripNewlines auth) = Err ErrCannotParseDockercfg).
Proof.
  pose proof (decodeFrom_strip auth 0 0 []) as Heq.
  unfold decodeUserpass, DecodeString.
  destruct (decodeFrom auth 0 []) as [d1 | e1] eqn:H1,
           (decodeFrom (stripNewlines auth) 0 []) as [d2 | e2] eqn:H2;
    cbn in Heq; try discriminate.
  - injection Heq as <-. repeat split; auto.
  - destruct (decodeFrom_err _ _ _ _ H1) as [o1 ->].
    destruct (decodeFrom_err _ _ _ _ H2) as [o2 ->].
    repeat split; intros; discriminate.
Qed.

Lemma strip_empty_decodes_empty (s : string) :
  stripNewlines s = "" -> DecodeString s = Ok "".
Proof.
  intros Hs. apply okOf_Ok. unfold DecodeString.
  now rewrite (decodeFrom_strip s 0 0 []), Hs.
Qed.

Lemma finish_ok (rest : string) (si : Z) (out data : string) :
  finish rest si out = Ok data -> stripNewlines rest = "".
Proof.
  unfold finish. destruct (skip_strip rest si) as [Hs Hhead].
  destruct (skipNewlines rest si) as [r s1]. cbn [fst] in *.
  destruct r; [now rewrite <- Hs | discriminate].
Qed.

(** What is accepted is, line breaks aside, whole quanta of four bytes. *)
Lemma decodeFrom_quanta (s : string) :
  forall si dbuf data,
    (length dbuf < 4)%nat ->
    decodeFrom s si dbuf = Ok data ->
    ((length dbuf + String.length (stripNewlines s)) mod 4 = 0)%nat.
Proof.
  induction s as [| c rest IH]; intros si dbuf data Hlen.
  - cbn. destruct dbuf; [reflexivity | discriminate].
  - cbn [decodeFrom stripNewlines].
    destruct (negb (decodeMap c =? 255)) eqn:Hvalid.
    + apply negb_true_iff in Hvalid. rewrite (valid_not_newline c Hvalid).
      cbn [String.length]. rewrite length_app. cbn [length].
      destruct (length dbuf + 1 =? 4)%nat eqn:Hfull.
      * apply Nat.eqb_eq in Hfull.
        destruct (decodeFrom rest (si + 1) []) as [out |] eqn:Hrest; [| discriminate].
        intros _.
        assert (Hnil : (length (@nil Z) < 4)%nat) by (cbn; lia).
        specialize (IH _ _ _ Hnil Hrest). cbn [length] in IH.
        replace (length dbuf + S (String.length (stripNewlines rest)))%nat
          with (String.length (stripNewlines rest) + 1 * 4)%nat by lia.
        now rewrite Nat.Div0.mod_add.
      * apply Nat.eqb_neq in Hfull. intros Hrun.
        assert (Hlen' : (length (dbuf ++ [decodeMap c]) < 4)%nat)
          by (rewrite length_app; cbn [length]; lia).
        specialize (IH _ _ _ Hlen' Hrun). rewrite length_app in IH. cbn [length] in IH.
        now replace (length dbuf + S (String.length (stripNewlines rest)))%nat
          with (length dbuf + 1 + String.length (stripNewlines rest))%nat by lia.
    + destruct (isNewline c) eqn:Hnl; [apply IH, Hlen |].
      destruct (negb (Ascii.eqb c padChar)); [discriminate |].
      cbn [String.length].
      destruct (length dbuf) as [| [| [| n]]] eqn:Hd; try discriminate.
      * destruct (skip_strip rest (si + 1)) as [Hs Hhead].
        destruct (skipNewlines rest (si + 1)) as [r s1]. cbn [fst] in *.
        destruct r as [| c2 r2]; [discriminate |].
        destruct Hhead as [[=] | (c' & r' & [= <- <-] & Hc2)].
        destruct (negb (Ascii.eqb c2 padChar)); [discriminate |].
        intros Hfin. apply finish_ok in Hfin.
        rewrite <- Hs. cbn [stripNewlines]. rewrite Hc2, Hfin. reflexivity.
      * intros Hfin. apply finish_ok in Hfin. rewrite Hfin.
        assert (n = 0)%nat as -> by lia. reflexivity.
Qed.

(** X16: an [auth] value must be padded.  When an [auth] value yields a
    user name and a password, its length without line breaks is a multiple of
    four and at least four. *)
Theorem auth_must_be_padded (auth : string) (up : string * string) :
  decodeUserpass auth = Ok up ->
  (String.length (stripNewlines auth) mod 4 = 0)%nat /\
  (4 <= String.length (stripNewlines auth))%nat.
Proof.
  intros Hup.
  assert (Hmod : (String.length (stripNewlines auth) mod 4 = 0)%nat).
  { revert Hup. unfold decodeUserpass, DecodeString.
    destruct (decodeFrom auth 0 []) as [data | e] eqn:Hdec; [| discriminate].
    intros _. apply (decodeFrom_quanta auth 0 [] data); [cbn; lia | exact Hdec]. }
  split; [exact Hmod |].
  destruct (stripNewlines auth) as [| c s] eqn:Hs.
  - exfalso. revert Hup. unfold decodeUserpass.
    now rewrite (strip_empty_decodes_empty auth Hs).
  - cbn [String.length] in *.
    destruct (String.length s) as [| [| [| n]]]; cbn in Hmod; try discriminate. lia.
Qed.

End LineBreaks.

(** ** The order of a map and the lookup *)

Section LookupOrder.
(** [N] is [normalizeRegistryAddress]. *)
Variable N : string -> string.

Lemma agree_expandHome (W1 W2 : World) (f : string) :
  agree W1 W2 -> expandHome W1 f = expandHome W2 f.
Proof. intros (Hhome & _). now rewrite !expandHome_cases, Hhome. Qed.

Lemma agree_parseDockerConfig (W1 W2 : World) (r : string) :
  agree W1 W2 -> parseDockerConfig W1 r = parseDockerConfig W2 r.
Proof.
  intros (_ & _ & Hauths & Hconfs). unfold parseDockerConfig, jsonUnmarshal.
  now rewrite Hauths, Hconfs.
Qed.

Lemma agree_newAuthConfigurations (W1 W2 : World) (i j : nat) (r : string)
    (auths : AuthConfigs) :
  range_sound W1 -> range_sound W2 -> agree W1 W2 ->
  newAuthConfigurations W1 i r = Ok auths -> newAuthConfigurations W2 j r = Ok auths.
Proof.
  intros Hs1 Hs2 Hagree. unfold newAuthConfigurations.
  rewrite <- (agree_parseDockerConfig W1 W2 r Hagree).
  destruct (parseDockerConfig W1 r) as [confs | e]; [| discriminate].
  destruct (authConfigs W1 i confs) as [c | e] eqn:Hrun; [| discriminate].
  intros [= <-]. now rewrite (authConfigs_any_order W1 W2 i j confs c Hs1 Hs2 Hrun).
Qed.

(** X11: the order in which the runtime visits a map decides nothing unless
    two keys of the file normalize to the address looked for.  When a
    file-based block resolves and at most one key of the file it read
    normalizes to its address, the block resolves to the same record, with
    the same system calls, under every other order. *)
Theorem lookup_independent_of_map_order (W1 W2 : World) (i j : nat)
    (b : authBlock) (ac : types.AuthConfig) :
  range_sound W1 -> range_sound W2 -> agree W1 W2 ->
  fileBased b = true ->
  outcome (resolveBlock N W1 i b) = Ok ac ->
  (forall path content auths reg1 reg2,
      outcome (expandHome W1 (default "" (config_file b))) = Ok path ->
      os_Open W1 path = inl content ->
      newAuthConfigurations W1 i content = Ok auths ->
      is_Some (Configs auths !! reg1) -> is_Some (Configs auths !! reg2) ->
      N reg1 = N (address b) -> N reg2 = N (address b) -> reg1 = reg2) ->
  resolveBlock N W2 j b = resolveBlock N W1 i b.
Proof.
  intros Hs1 Hs2 Hagree Hb Hok Hunique.
  destruct (fileBased_true b Hb) as [Hu Hf]. revert Hok. unfold resolveBlock.
  rewrite Hu, Hf, !fromConfigFile_run,
    <- (agree_expandHome W1 W2 _ Hagree).
  destruct (expandHome W1 _) as [t [path | e]] eqn:Hpath; [| discriminate].
  destruct Hagree as (Hhome & Hopen & Hrest). rewrite <- Hopen.
  destruct (os_Open W1 path) as [content | msg] eqn:Hcontent; [| discriminate].
  destruct (newAuthConfigurations W1 i content) as [auths | e] eqn:Hparse; [| discriminate].
  rewrite (agree_newAuthConfigurations W1 W2 i j content auths Hs1 Hs2
             (conj Hhome (conj Hopen Hrest)) Hparse).
  set (base := types.setServerAddress (N (address b)) types.zero).
  change (types.ServerAddress base) with (N (address b)).
  destruct (last (hits N W1 i (N (address b)) auths)) as [[reg1 fc1] |] eqn:H1;
    [| discriminate].
  intros _.
  apply last_Some_elem_of, (hits_elem N W1 Hs1) in H1 as [Hreg1 Hmatch1].
  destruct (last (hits N W2 j (N (address b)) auths)) as [[reg2 fc2] |] eqn:H2.
  - apply last_Some_elem_of, (hits_elem N W2 Hs2) in H2 as [Hreg2 Hmatch2].
    assert (reg2 = reg1) as ->
      by (apply (Hunique path content auths); eauto; now rewrite Hpath).
    now replace fc2 with fc1 by congruence.
  - exfalso. apply (proj1 (hits_none N W2 Hs2 j (N (address b)) auths) H2 reg1 fc1);
      assumption.
Qed.

End LookupOrder.

(** ** More runs *)

Section MoreRuns.
Import Demo DemoDaemon.

Lemma backwards_sound (W : World) : range_sound W -> range_sound (backwards W).
Proof.
  intros [Hconfs Hauths]. split; intros i m; cbn.
  - now rewrite reverse_Permutation.
  - now rewrite reverse_Permutation.
Qed.

Lemma backwards_agree (W : World) : agree W (backwards W).
Proof. now repeat split. Qed.

Lemma pass_without_files_witness :
  exists cfgs, forall W,
    providerSetToRegistryAuth normalize W [inlineBlock; bareBlock] = ([], Ok cfgs).
Proof.
  apply (pass_without_files normalize [inlineBlock; bareBlock]).
  intros b Hb.
  repeat (apply elem_of_cons in Hb as [-> | Hb]; [reflexivity |]).
  now apply elem_of_nil in Hb.
Defined.

Lemma resolved_records_carry_credentials_only_witness :
  exists cfgs ac,
    outcome (providerSetToRegistryAuth normalize world [inlineBlock; homeBlock]) = Ok cfgs /\
    Configs cfgs !! "registry.example.com" = Some ac /\
    types.ServerAddress ac = "registry.example.com" /\
    types.Auth ac = "" /\ types.Email ac = "".
Proof.
  exists {| Configs := {[ "reg.example.com" := credential "reg.example.com" "u" "";
                          "registry.example.com"
                            := credential "registry.example.com" "user" "pass" ]} |},
         (credential "registry.example.com" "user" "pass").
  assert (Hout :
    outcome (providerSetToRegistryAuth normalize world [inlineBlock; homeBlock])
    = Ok {| Configs := {[ "reg.example.com" := credential "reg.example.com" "u" "";
                          "registry.example.com"
                            := credential "registry.example.com" "user" "pass" ]} |})
    by (vm_compute; reflexivity).
  split; [exact Hout |]. split; [reflexivity |].
  destruct (resolved_records_carry_credentials_only normalize world
              [inlineBlock; homeBlock] _ "registry.example.com"
              (credential "registry.example.com" "user" "pass") Hout eq_refl)
    as (Haddr & Hauth & Hemail & _).
  now repeat split.
Defined.

Lemma resolved_set_size_witness :
  exists cfgs,
    outcome (providerSetToRegistryAuth normalize world [inlineBlock; bareBlock; homeBlock])
    = Ok cfgs /\
    (size (Configs cfgs) <= 3)%nat /\
    ~ NoDup ((fun b => normalize (address b)) <$> [inlineBlock; bareBlock; homeBlock]).
Proof.
  exists {| Configs := {[ "reg.example.com" := credential "reg.example.com" "" "";
                          "registry.example.com"
                            := credential "registry.example.com" "user" "pass" ]} |}.
  assert (Hout :
    outcome (providerSetToRegistryAuth normalize world [inlineBlock; bareBlock; homeBlock])
    = Ok {| Configs := {[ "reg.example.com" := credential "reg.example.com" "" "";
                          "registry.example.com"
                            := credential "registry.example.com" "user" "pass" ]} |})
    by (vm_compute; reflexivity).
  split; [exact Hout |].
  destruct (resolved_set_size normalize world [inlineBlock; bareBlock; homeBlock] _ Hout)
    as [Hle Hiff].
  split; [exact Hle |].
  intros Hnd. apply Hiff in Hnd. vm_compute in Hnd. discriminate.
Defined.

Lemma pass_errors_witness :
  exists e,
    outcome (providerSetToRegistryAuth normalize world [inlineBlock; brokenBlock]) = Err e /\
    e = Errorf "Error parsing docker registry config json: Failed to read authentication from dockercfg" /\
    e <> ErrCannotParseDockercfg.
Proof.
  eexists. split; [vm_compute; reflexivity |]. split; [reflexivity |].
  apply (pass_errors normalize world [inlineBlock; brokenBlock]).
  vm_compute. reflexivity.
Defined.

Lemma one_open_per_file_block_witness :
  List.filter isOpen
    (trace (providerSetToRegistryAuth normalize world [homeBlock; homeBlock; inlineBlock]))
  = [CallOpen "/home/dev/.docker/config.json"; CallOpen "/home/dev/.docker/config.json"] /\
  length (List.filter isOpen
            (trace (providerSetToRegistryAuth normalize world
                      [homeBlock; homeBlock; inlineBlock]))) = 2%nat /\
  length (List.filter isUserCurrent
            (trace (providerSetToRegistryAuth normalize world
                      [homeBlock; homeBlock; inlineBlock]))) = 2%nat.
Proof.
  split; [vm_compute; reflexivity |].
  destruct (one_open_per_file_block normalize world [homeBlock; homeBlock; inlineBlock])
    as (_ & _ & Heq).
  apply (Heq {| Configs := {[ "reg.example.com" := credential "reg.example.com" "u" "";
                              "registry.example.com"
                                := credential "registry.example.com" "user" "pass" ]} |}).
  vm_compute. reflexivity.
Defined.

Lemma fields_outside_the_mode_are_ignored_witness :
  providerSetToRegistryAuth normalize world [inlineBlock; bareBlock]
  = providerSetToRegistryAuth normalize world
      [ {| address := "reg.example.com/"; username := Some "u"; password := "";
           config_file := None |};
        {| address := "reg.example.com"; username := None; password := "";
           config_file := Some "" |} ].
Proof.
  apply fields_outside_the_mode_are_ignored.
  repeat constructor; cbn; intros; first [reflexivity | discriminate | now split].
Defined.

Lemma pass_order_irrelevant_witness :
  outcome (providerSetToRegistryAuth normalize world [twinBlock; homeBlock])
  = outcome (providerSetToRegistryAuth normalize world [homeBlock; twinBlock]).
Proof.
  assert (Hout :
    outcome (providerSetToRegistryAuth normalize world [homeBlock; twinBlock])
    = Ok {| Configs := {[ "registry.example.com"
                            := credential "registry.example.com" "user" "pass";
                          "reg.example.com" := credential "reg.example.com" "u1" "p1" ]} |})
    by (vm_compute; reflexivity).
  rewrite Hout.
  apply (pass_order_irrelevant normalize world [homeBlock; twinBlock] [twinBlock; homeBlock]).
  - apply Permutation_swap.
  - apply (bool_decide_unpack _). vm_compute. reflexivity.
  - intros b i j Hb.
    repeat (apply elem_of_cons in Hb as [-> | Hb]; [vm_compute; reflexivity |]).
    now apply elem_of_nil in Hb.
  - exact Hout.
Defined.

Lemma expandHome_leading_tilde_witness :
  expandHome world ("~/" +:+ ".docker/~config.json")
  = ([CallUserCurrent], Ok "/home/dev/.docker/~config.json") /\
  expandHome world "~dev/config.json" = ([], Ok "~dev/config.json") /\
  expandHome world "~" = ([], Ok "~").
Proof.
  destruct (expandHome_leading_tilde world) as [Hhome Hother].
  split; [apply (Hhome ".docker/~config.json") |].
  split; apply Hother; reflexivity.
Defined.

Lemma authConfigs_order_irrelevant_witness :
  authConfigs (backwards world) 5 twinAuths = Ok twinParsed /\
  exists e', authConfigs (backwards world) 5 twoBadAuths = Err e'.
Proof.
  destruct (authConfigs_order_irrelevant world (backwards world) 0 5 twinAuths
              demo_world_sound (backwards_sound _ demo_world_sound)) as [Hok _].
  destruct (authConfigs_order_irrelevant world (backwards world) 0 5 twoBadAuths
              demo_world_sound (backwards_sound _ demo_world_sound)) as [_ Herr].
  split.
  - apply Hok. vm_compute. reflexivity.
  - apply (Herr ErrCannotParseDockercfg). vm_compute. reflexivity.
Defined.

Lemma authConfigs_first_undecodable_witness :
  authConfigs world 0 twoBadAuths = Err ErrCannotParseDockercfg /\
  authConfigs (backwards world) 0 twoBadAuths = Err (CorruptInputError 0).
Proof.
  split.
  - apply (proj2 (authConfigs_first_undecodable world 0 twoBadAuths _)).
    exists [], "a.example.com", {| Auth := "bm9jb2xvbg=="; Email := "" |},
      [("b.example.com", {| Auth := "!!!!"; Email := "" |})].
    split; [vm_compute; reflexivity |].
    split; [split; [discriminate | reflexivity] |].
    intros r c e' Hin. now apply elem_of_nil in Hin.
  - apply (proj2 (authConfigs_first_undecodable (backwards world) 0 twoBadAuths _)).
    exists [], "b.example.com", {| Auth := "!!!!"; Email := "" |},
      [("a.example.com", {| Auth := "bm9jb2xvbg=="; Email := "" |})].
    split; [vm_compute; reflexivity |].
    split; [split; [discriminate | reflexivity] |].
    intros r c e' Hin. now apply elem_of_nil in Hin.
Defined.

Lemma authConfigs_records_decode_witness :
  exists conf,
    twinAuths !! "reg.example.com/" = Some conf /\
    types.ServerAddress userTwo = "reg.example.com/" /\
    types.Auth userTwo = Auth conf /\ types.Auth userTwo <> "" /\
    types.Email userTwo = Email conf /\
    types.IdentityToken userTwo = "" /\ types.RegistryToken userTwo = "" /\
    base64.DecodeString (types.Auth userTwo)
    = Ok (types.Username userTwo +:+ ":" +:+ types.Password userTwo) /\
    strings.ContainsByte (types.Username userTwo) ":" = false.
Proof.
  apply (authConfigs_records_decode world 0 twinAuths twinParsed "reg.example.com/" userTwo
           demo_world_sound).
  - vm_compute. reflexivity.
  - reflexivity.
Defined.

Lemma files_read_only_after_ping_witness :
  fst (providerConfigure normalize world daemon
         (data "tcp://down:2375" (Some [homeBlock])))
  = [StepNewClient (configOf (data "tcp://down:2375" (Some [homeBlock]))); StepPing] /\
  fst (providerConfigure normalize world daemon
         (data "unix:///var/run/docker.sock" (Some [homeBlock])))
  = [StepNewClient (configOf (data "unix:///var/run/docker.sock" (Some [homeBlock])));
     StepPing;
     StepSys CallUserCurrent;
     StepSys (CallOpen "/home/dev/.docker/config.json")] /\
  StepPing ∈ [StepNewClient (configOf (data "unix:///var/run/docker.sock" (Some [homeBlock])));
              StepPing; StepSys CallUserCurrent].
Proof.
  destruct (files_read_only_after_ping normalize world daemon
              (data "tcp://down:2375" (Some [homeBlock]))) as (Hdown & _).
  destruct (files_read_only_after_ping normalize world daemon
              (data "unix:///var/run/docker.sock" (Some [homeBlock]))) as (Hup & _ & Horder).
  split; [rewrite Hdown; reflexivity |].
  split; [rewrite Hup; reflexivity |].
  apply (Horder (CallOpen "/home/dev/.docker/config.json")
           [StepNewClient (configOf (data "unix:///var/run/docker.sock" (Some [homeBlock])));
            StepPing; StepSys CallUserCurrent] []).
  rewrite Hup. reflexivity.
Defined.

Lemma configure_outcome_witness :
  snd (providerConfigure normalize world daemon
         (data "unix:///var/run/docker.sock" (Some [inlineBlock; strangerBlock])))
  = Err (Errorf "Error loading registry auth config: Couldn't find registry config for 'nope.example.com' in file: /etc/docker/flat.json").
Proof.
  destruct (configure_outcome normalize world daemon
              (data "unix:///var/run/docker.sock" (Some [inlineBlock; strangerBlock])))
    as (_ & Herr & Hfail).
  destruct (Hfail [inlineBlock; strangerBlock]
              (Errorf (notFoundMessage "nope.example.com" "/etc/docker/flat.json")) eq_refl)
    as [e He]; [vm_compute; reflexivity |].
  rewrite He. f_equal.
  destruct (Herr e He)
    as [(msg & Hnew & _) | [(client & msg & Hnew & Hping & _)
                           | (client & blocks & e' & _ & _ & Hauth & Hpass & ->)]].
  - discriminate.
  - injection Hnew as <-. discriminate.
  - injection Hauth as <-. vm_compute in Hpass. injection Hpass as <-. reflexivity.
Defined.

Lemma auth_line_breaks_are_ignored_witness :
  decodeUserpass (String "d" (String "X" (String "010" (String "N" (String "013" "lcjpwYXNz")))))
  = Ok ("user", "pass").
Proof.
  apply (proj2 (proj1 (proj2 (auth_line_breaks_are_ignored _)) _)).
  reflexivity.
Defined.

Lemma auth_must_be_padded_witness :
  (String.length (stripNewlines "dXNlcjpwYTpzcw==") mod 4 = 0)%nat /\
  (4 <= String.length (stripNewlines "dXNlcjpwYTpzcw=="))%nat.
Proof.
  apply (auth_must_be_padded "dXNlcjpwYTpzcw==" ("user", "pa:ss")).
  reflexivity.
Defined.

Lemma lookup_independent_of_map_order_witness :
  resolveBlock normalize (backwards world) 3 homeBlock
  = resolveBlock normalize world 0 homeBlock.
Proof.
  apply (lookup_independent_of_map_order normalize world (backwards world) 0 3 homeBlock
           (credential "registry.example.com" "user" "pass")
           demo_world_sound (backwards_sound _ demo_world_sound) (backwards_agree _)).
  - reflexivity.
  - vm_compute. reflexivity.
  - intros path content auths reg1 reg2 Hpath Hopen Hparse [fc1 H1] [fc2 H2] Hm1 Hm2.
    injection Hpath as <-. injection Hopen as <-.
    assert (Hfile : newAuthConfigurations world 0 wrappedJSON
                    = Ok {| Configs := {[ "registry.example.com" :=
                         {| types.Username := "user"; types.Password := "pass";
                            types.Auth := "dXNlcjpwYXNz"; types.Email := "u@example.com";
                            types.ServerAddress := "registry.example.com";
                            types.IdentityToken := ""; types.RegistryToken := "" |} ]} |})
      by (vm_compute; reflexivity).
    rewrite Hfile in Hparse. injection Hparse as <-. cbn [Configs] in H1, H2.
    apply lookup_singleton_Some in H1 as [<- _], H2 as [<- _]. reflexivity.
Defined.

End MoreRuns.

(** ** A file with two entries that do not decode *)

Section MixedRuns.

(** C10 as stated fails on a file with a well-formed entry for the address
    asked for and two entries that do not decode: the entry [b.example.com]
    is not base64, and the block fails with the message of the other one,
    which has no colon and is visited before it. *)
Lemma another_entry_error_reported :
  parseDockerConfig Mixed.world Mixed.mixedJSON = Ok Mixed.mixedAuths /\
  Mixed.mixedAuths !! "registry.example.com"
  = Some {| Auth := "dXNlcjpwYXNz"; Email := "" |} /\
  Mixed.mixedAuths !! "b.example.com" = Some {| Auth := "!!!!"; Email := "" |} /\
  undecodable {| Auth := "!!!!"; Email := "" |} (CorruptInputError 0) /\
  resolveBlock Demo.normalize Mixed.world 0 Mixed.block
  = ([CallOpen "/etc/docker/mixed.json"],
     Err (Errorf "Error parsing docker registry config json: Failed to read authentication from dockercfg")) /\
  outcome (resolveBlock Demo.normalize Mixed.world 0 Mixed.block)
  <> Err (CorruptInputError 0) /\
  outcome (resolveBlock Demo.normalize Mixed.world 0 Mixed.block)
  <> Err (Errorf ("Error parsing docker registry config json: "
                  +:+ Error (CorruptInputError 0))).
Proof.
  split; [vm_compute; reflexivity |].
  split; [vm_compute; reflexivity |].
  split; [vm_compute; reflexivity |].
  split; [split; [discriminate | reflexivity] |].
  split; [vm_compute; reflexivity |].
  split; vm_compute; discriminate.
Qed.

End MixedRuns.
